(** * Dock Your Boat remote-control client: a verification development

    The development embeds [DYBClient] (the protocol client of the
    TypeScript demo: [DYBClient.ts] together with the declarations of
    [types.ts]) and proves properties of its connection state machine,
    its frame decoder, its envelope codec and its event dispatch.

    Layout:
    - [JS]        the part of the JavaScript host the client relies on
                  (numbers, [Math], values, property access, [JSON]);
    - [Node]      the effects the client has on its host (console, socket,
                  timers, emitted events) and the monad that threads them;
    - [DYBClient] the class itself, method by method;
    - the theorems.

    Conventions of the embedding.
    - A JavaScript string is a [string]: a sequence of code units, here
      restricted to the code units below 256.
    - A JavaScript number is [NaN], an infinity, or a finite value given by
      the rational it denotes.  The client compares, clamps, rounds and
      prints numbers; the first three are exact on binary64 values, so they
      are computed on the rationals, and printing and parsing go through
      the binary64 rounding [JS.roundF].  The two zeros are not told apart:
      the client never observes the sign of a zero (both print as [0], both
      are integers, both are falsy).
    - Subscribers registered with [on] are outside the class.  An emitted
      event is recorded in the trace of the host; a subscriber is taken to
      return normally and not to call back into the client while it runs.
    - [socket.connect] checks its port before it does anything else and
      throws on a port that is not an integer from 0 to 65535, so that a
      client with such a port never opens a transport.  The client is
      embedded with a port that passes the check, [valid_port]: [connect]
      is the method on such a client, and a property about a [connect]
      that opens a transport says so, unless it starts from a session
      that has been connected.
    - The values of the embedding are plain data (null, booleans,
      numbers, strings, and arrays and objects of plain data),
      [undefined], functions, symbols and BigInts.  They include every
      value of the declared type of a control value (number, boolean,
      string).  Objects with methods or accessors and cyclic objects are
      not among them.
    - A call of the console is recorded with its arguments.  The glyphs
      that open some of the texts of the source (a check mark, arrows,
      pictographs) are not code units below 256: the arrows are written
      [->] and [<-], the others are left out. *)

From Stdlib Require Import ZArith QArith Qround Qabs Qreduction.
From Stdlib Require Import Bool List String Ascii Lia Lqa.
Import ListNotations.

Local Open Scope string_scope.

(* ================================================================== *)
(** * The JavaScript host *)
(* ================================================================== *)

Module JS.

(** ** Numbers *)

Inductive number : Type :=
| NaN
| PosInfinity
| NegInfinity
| Finite (q : Q).

Definition isNaN (x : number) : bool :=
  match x with NaN => true | _ => false end.

(** [x < y] of JavaScript: false as soon as an operand is [NaN]. *)
Definition lt (x y : number) : bool :=
  match x, y with
  | NaN, _ | _, NaN => false
  | _, NegInfinity => false
  | NegInfinity, _ => true
  | PosInfinity, _ => false
  | _, PosInfinity => true
  | Finite p, Finite q => negb (Qle_bool q p)
  end.

(** [x === y] on numbers. *)
Definition number_eqb (x y : number) : bool :=
  match x, y with
  | PosInfinity, PosInfinity => true
  | NegInfinity, NegInfinity => true
  | Finite p, Finite q => Qeq_bool p q
  | _, _ => false
  end.

(** [Math.max(...args)]: the running maximum starts at -Infinity, a [NaN]
    argument makes the result [NaN], and an argument replaces the running
    maximum when it is greater. *)
Fixpoint max_loop (highest : number) (args : list number) : number :=
  match args with
  | [] => highest
  | n :: rest =>
      if isNaN n then NaN
      else max_loop (if lt highest n then n else highest) rest
  end.

Definition Math_max (args : list number) : number :=
  max_loop NegInfinity args.

(** [Math.min(...args)], symmetrically from +Infinity. *)
Fixpoint min_loop (lowest : number) (args : list number) : number :=
  match args with
  | [] => lowest
  | n :: rest =>
      if isNaN n then NaN
      else min_loop (if lt n lowest then n else lowest) rest
  end.

Definition Math_min (args : list number) : number :=
  min_loop PosInfinity args.

(** [Math.round(x)]: the integer closest to [x], the one towards +Infinity
    on a tie, which is [floor(x + 1/2)]. *)
Definition Math_round (x : number) : number :=
  match x with
  | Finite q => Finite (inject_Z (Qfloor (q + (1 # 2))))
  | _ => x
  end.

(** Whether a number is finite and has no fractional part. *)
Definition is_integral (x : number) : bool :=
  match x with
  | Finite q => Qeq_bool (inject_Z (Qfloor q)) q
  | _ => false
  end.

(** *** Rounding to binary64 *)

Definition pow2 (e : Z) : Q := Qpower 2 e.
Definition pow10 (e : Z) : Q := Qpower 10 e.

(** [floor (log2 q)] for [q > 0]. *)
Definition ilog2 (q : Q) : Z :=
  let l := (Z.log2 (Qnum q) - Z.log2 (Zpos (Qden q)))%Z in
  if Qle_bool (pow2 l) q then l else (l - 1)%Z.

(** Nearest integer to [r >= 0], ties to even. *)
Definition round_half_even (r : Q) : Z :=
  let f := Qfloor r in
  match ((r - inject_Z f) ?= (1 # 2))%Q with
  | Lt => f
  | Gt => (f + 1)%Z
  | Eq => if Z.even f then f else (f + 1)%Z
  end.

(** The binary64 value nearest to the rational [q], ties to even: 53 bits
    of precision, least exponent -1074, overflow to an infinity from
    2^1024 on. *)
Definition roundF (q : Q) : number :=
  if Qeq_bool q 0 then Finite 0
  else
    let a := Qabs q in
    let e := Z.max (ilog2 a - 52) (-1074) in
    let m := round_half_even (a / pow2 e) in
    let v := Qred (inject_Z m * pow2 e) in
    if Qle_bool (pow2 1024) v
    then (if Qle_bool 0 q then PosInfinity else NegInfinity)
    else Finite (if Qle_bool 0 q then v else Qred (- v)).

(** [x / y] on numbers, for a finite non-zero divisor (the only division
    of the client divides by the literal 1000). *)
Definition div_finite (x : number) (d : Q) : number :=
  match x with
  | Finite q => roundF (q / d)
  | PosInfinity => if Qle_bool 0 d then PosInfinity else NegInfinity
  | NegInfinity => if Qle_bool 0 d then NegInfinity else PosInfinity
  | NaN => NaN
  end.

(** *** Number::toString, radix 10 *)

Definition digit_char (d : Z) : ascii :=
  ascii_of_nat (48 + Z.to_nat d).

(** The decimal digits of [z >= 0], most significant first; [fuel] bounds
    the number of digits. *)
Fixpoint digits_loop (fuel : nat) (z : Z) (acc : string) : string :=
  match fuel with
  | O => acc
  | S fuel' =>
      let acc' := String (digit_char (z mod 10)) acc in
      if (z / 10 =? 0)%Z then acc' else digits_loop fuel' (z / 10) acc'
  end.

Definition digits (z : Z) : string :=
  digits_loop (S (Z.to_nat (Z.log2 z))) z "".

Fixpoint zeros (n : nat) : string :=
  match n with O => "" | S n' => String "0" (zeros n') end.

(** The decade of [q > 0]: the [n] with [10^(n-1) <= q < 10^n], searched
    downwards from an upper estimate. *)
Fixpoint decade_loop (fuel : nat) (q : Q) (n : Z) : Z :=
  match fuel with
  | O => n
  | S fuel' =>
      if Qle_bool (pow10 (n - 1)) q then n else decade_loop fuel' q (n - 1)
  end.

Definition decade (q : Q) : Z :=
  let hi := (Z.log2 (Qnum q) + 1)%Z in
  let span := (Z.log2 (Qnum q) + Z.log2 (Zpos (Qden q)) + 2)%Z in
  decade_loop (Z.to_nat span) q hi.

(** A candidate digit string [s] of [k] digits at decade [n] stands for
    [s * 10^(n-k)]; it is admissible for [q] when it has exactly [k] digits
    and rounds to [q]. *)
Definition admissible (q : Q) (n k s : Z) : bool :=
  (10 ^ (k - 1) <=? s)%Z && (s <? 10 ^ k)%Z &&
  number_eqb (roundF (inject_Z s * pow10 (n - k))) (Finite q).

(** The better of two optional candidates [(n, s)]: the one whose value is
    closer to [q], the even digit string on a tie. *)
Definition closer (q : Q) (k : Z) (c1 c2 : option (Z * Z)) : option (Z * Z) :=
  match c1, c2 with
  | None, c | c, None => c
  | Some (n1, s1), Some (n2, s2) =>
      let d1 := Qabs (inject_Z s1 * pow10 (n1 - k) - q) in
      let d2 := Qabs (inject_Z s2 * pow10 (n2 - k) - q) in
      match (d1 ?= d2)%Q with
      | Lt => c1
      | Gt => c2
      | Eq => if Z.even s1 then c1 else c2
      end
  end.

Definition candidates_at (q : Q) (n k : Z) : option (Z * Z) :=
  let lo := Qfloor (q / pow10 (n - k)) in
  let pick s := if admissible q n k s then Some (n, s) else None in
  closer q k (pick lo) (pick (lo + 1)%Z).

(** The shortest digit string: the least [k] with an admissible candidate
    at the decade of [q] or the next one.  Seventeen digits tell any two
    binary64 values apart, so the search ends within its fuel on every
    binary64 value. *)
Fixpoint shortest_loop (fuel : nat) (q : Q) (n0 k : Z) : Z * Z * Z :=
  match fuel with
  | O => (n0, k, Qfloor (q / pow10 (n0 - k)))
  | S fuel' =>
      match closer q k (candidates_at q n0 k) (candidates_at q (n0 + 1) k) with
      | Some (n, s) => (n, k, s)
      | None => shortest_loop fuel' q n0 (k + 1)
      end
  end.

Definition shortest (q : Q) : Z * Z * Z :=
  shortest_loop 17 q (decade q) 1.

(** The text of a positive finite number from its shortest digits. *)
Definition render (n k s : Z) : string :=
  let ds := digits s in
  if ((-5 <=? n) && (n <=? 21))%Z then
    if (k <=? n)%Z then ds ++ zeros (Z.to_nat (n - k))
    else if (0 <? n)%Z then
      substring 0 (Z.to_nat n) ds ++ "." ++
      substring (Z.to_nat n) (Z.to_nat (k - n)) ds
    else "0." ++ zeros (Z.to_nat (- n)) ++ ds
  else
    let c := if (0 <=? n - 1)%Z then "+" else "-" in
    let e := digits (Z.abs (n - 1)) in
    if (k =? 1)%Z then ds ++ "e" ++ c ++ e
    else substring 0 1 ds ++ "." ++ substring 1 (Z.to_nat (k - 1)) ds ++
         "e" ++ c ++ e.

Definition Number_toString (x : number) : string :=
  match x with
  | NaN => "NaN"
  | PosInfinity => "Infinity"
  | NegInfinity => "-Infinity"
  | Finite q =>
      if Qeq_bool q 0 then "0"
      else
        let '(n, k, s) := shortest (Qabs q) in
        (if Qle_bool 0 q then "" else "-") ++ render n k s
  end.

(** ** Exceptions and outcomes *)

Inductive exn : Type :=
| SyntaxError (msg : string)
| TypeError (msg : string)
| PlainError (msg : string).

Inductive outcome (A : Type) : Type :=
| Return (a : A)
| Throw (e : exn).

Arguments Return {A} a.
Arguments Throw {A} e.

(** ** Values *)

(** Plain data: what [JSON.parse] returns and what object literals of
    data denote.  The properties of an object are listed in the order of
    their enumeration. *)
#[local] Unset Elimination Schemes.
Inductive json : Type :=
| JNull
| JBool (b : bool)
| JNum (n : number)
| JStr (s : string)
| JArr (elems : list json)
| JObj (props : list (string * json)).
#[local] Set Elimination Schemes.

(** A value at run time: plain data, or one of the values that are not
    data. *)
Inductive value : Type :=
| VUndefined
| VData (j : json)
| VFunction (src : string)
| VSymbol (description : string)
| VBigInt (z : Z).

Definition typeof (v : value) : string :=
  match v with
  | VUndefined => "undefined"
  | VData JNull => "object"
  | VData (JBool _) => "boolean"
  | VData (JNum _) => "number"
  | VData (JStr _) => "string"
  | VData (JArr _) => "object"
  | VData (JObj _) => "object"
  | VFunction _ => "function"
  | VSymbol _ => "symbol"
  | VBigInt _ => "bigint"
  end.

(** [Number.isInteger(v)]: false for a value that is not a number. *)
Definition Number_isInteger (v : value) : bool :=
  match v with
  | VData (JNum n) => is_integral n
  | _ => false
  end.

(** ToBoolean. *)
Definition truthy (v : value) : bool :=
  match v with
  | VUndefined => false
  | VData JNull => false
  | VData (JBool b) => b
  | VData (JNum NaN) => false
  | VData (JNum (Finite q)) => negb (Qeq_bool q 0)
  | VData (JNum _) => true
  | VData (JStr s) => negb (s =? "")
  | VData (JArr _) => true
  | VData (JObj _) => true
  | VFunction _ => true
  | VSymbol _ => true
  | VBigInt z => negb (z =? 0)%Z
  end.

Fixpoint lookup (k : string) (props : list (string * json)) : option json :=
  match props with
  | [] => None
  | (k', j) :: rest => if k' =? k then Some j else lookup k rest
  end.

(** The property read [base.k].  Reading from [undefined] or [null]
    throws; an object answers with its own property; every other base,
    and an object without the property, answers [undefined]: the client
    reads no key that a built-in prototype defines. *)
Definition Get (base : value) (k : string) : outcome value :=
  match base with
  | VUndefined =>
      Throw (TypeError ("Cannot read properties of undefined (reading '" ++ k ++ "')"))
  | VData JNull =>
      Throw (TypeError ("Cannot read properties of null (reading '" ++ k ++ "')"))
  | VData (JObj props) =>
      match lookup k props with
      | Some j => Return (VData j)
      | None => Return VUndefined
      end
  | _ => Return VUndefined
  end.

(** [v === s] for a string literal [s]. *)
Definition strict_eq_string (v : value) (s : string) : bool :=
  match v with
  | VData (JStr s') => s' =? s
  | _ => false
  end.

(** ToString, as a template literal applies it.  An array joins its
    elements with commas, [null] elements giving the empty text.  An object
    is converted through its [toString] method: the inherited one answers
    [[object Object]]; an own data property of that name is not callable,
    and neither it nor [valueOf] then yields a primitive. *)
Fixpoint json_toString (j : json) : outcome string :=
  match j with
  | JNull => Return "null"
  | JBool true => Return "true"
  | JBool false => Return "false"
  | JNum n => Return (Number_toString n)
  | JStr s => Return s
  | JArr elems =>
      (fix join (l : list json) : outcome string :=
         match l with
         | [] => Return ""
         | e :: rest =>
             match (match e with JNull => Return "" | _ => json_toString e end) with
             | Throw x => Throw x
             | Return s =>
                 match rest with
                 | [] => Return s
                 | _ :: _ =>
                     match join rest with
                     | Throw x => Throw x
                     | Return t => Return (s ++ "," ++ t)
                     end
                 end
             end
         end) elems
  | JObj props =>
      match lookup "toString" props with
      | None => Return "[object Object]"
      | Some _ => Throw (TypeError "Cannot convert object to primitive value")
      end
  end.

Definition Z_toString (z : Z) : string :=
  if (z <? 0)%Z then "-" ++ digits (Z.abs z) else digits z.

Definition ToString (v : value) : outcome string :=
  match v with
  | VUndefined => Return "undefined"
  | VData j => json_toString j
  | VFunction src => Return src
  | VSymbol _ => Throw (TypeError "Cannot convert a Symbol value to a string")
  | VBigInt z => Return (Z_toString z)
  end.

(** ** Strings *)

Fixpoint startsWith (s pat : string) : bool :=
  match pat, s with
  | "", _ => true
  | String a pat', String b s' => Ascii.eqb a b && startsWith s' pat'
  | String _ _, "" => false
  end.

(** The position of the first occurrence of [pat] in [s]. *)
Fixpoint find (s pat : string) : option nat :=
  if startsWith s pat then Some O
  else
    match s with
    | "" => None
    | String _ s' => option_map S (find s' pat)
    end.

(** [s.includes(pat)] *)
Definition includes (s pat : string) : bool :=
  match find s pat with Some _ => true | None => false end.

(** [s.indexOf(pat)]: -1 when [pat] does not occur. *)
Definition indexOf (s pat : string) : Z :=
  match find s pat with Some i => Z.of_nat i | None => (-1)%Z end.

(** [s.substring(start, end)]: both bounds are brought into
    [0 .. s.length] and swapped when out of order. *)
Definition substring2 (s : string) (start end_ : Z) : string :=
  let len := Z.of_nat (String.length s) in
  let a := Z.min (Z.max start 0) len in
  let b := Z.min (Z.max end_ 0) len in
  String.substring (Z.to_nat (Z.min a b)) (Z.to_nat (Z.max a b - Z.min a b)) s.

(** [s.substring(start)] *)
Definition substring1 (s : string) (start : Z) : string :=
  substring2 s start (Z.of_nat (String.length s)).

(** [s[0]] of a string that is not empty. *)
Definition charAt0 (s : string) : string := String.substring 0 1 s.

(** ** JSON.stringify *)

Definition hex_char (d : nat) : ascii :=
  if (d <? 10)%nat then ascii_of_nat (48 + d) else ascii_of_nat (87 + d).

(** QuoteJSONString, one code unit at a time. *)
Definition quote_char (c : ascii) : string :=
  let n := nat_of_ascii c in
  if (n =? 8)%nat then "\b"
  else if (n =? 9)%nat then "\t"
  else if (n =? 10)%nat then "\n"
  else if (n =? 12)%nat then "\f"
  else if (n =? 13)%nat then "\r"
  else if (n =? 34)%nat then String "\" (String c "")
  else if (n =? 92)%nat then "\\"
  else if (n <? 32)%nat then
    "\u00" ++ String (hex_char (n / 16)) (String (hex_char (n mod 16)) "")
  else String c "".

Fixpoint quote_body (s : string) : string :=
  match s with
  | "" => ""
  | String c rest => quote_char c ++ quote_body rest
  end.

Definition quote (s : string) : string :=
  String (ascii_of_nat 34) (quote_body s ++ String (ascii_of_nat 34) "").

Fixpoint join_with (sep : string) (parts : list string) : string :=
  match parts with
  | [] => ""
  | [p] => p
  | p :: rest => p ++ sep ++ join_with sep rest
  end.

(** Serialization of plain data, without indentation.  A number that is
    not finite is written [null]. *)
Fixpoint stringify_json (j : json) : string :=
  match j with
  | JNull => "null"
  | JBool true => "true"
  | JBool false => "false"
  | JNum (Finite q) => Number_toString (Finite q)
  | JNum _ => "null"
  | JStr s => quote s
  | JArr elems => "[" ++ join_with "," (map stringify_json elems) ++ "]"
  | JObj props =>
      "{" ++ join_with ","
               (map (fun kv => quote (fst kv) ++ ":" ++ stringify_json (snd kv)) props)
          ++ "}"
  end.

(** The serialization of one property value: [None] when the property is
    left out ([undefined], a function or a symbol), an exception for a
    BigInt. *)
Definition stringify_property (v : value) : outcome (option string) :=
  match v with
  | VData j => Return (Some (stringify_json j))
  | VUndefined => Return None
  | VFunction _ => Return None
  | VSymbol _ => Return None
  | VBigInt _ => Throw (TypeError "Do not know how to serialize a BigInt")
  end.

(** ** JSON.parse *)

(** A parser of the JSON grammar.  The client is embedded with the parser
    as a parameter; this one instantiates it on concrete frames.  A
    [\u] escape that names a code unit from 256 on has no counterpart in
    the strings of the embedding and is refused; the message of a
    [SyntaxError] is not reproduced. *)

Definition is_ws (c : ascii) : bool :=
  let n := nat_of_ascii c in
  ((n =? 32) || (n =? 9) || (n =? 10) || (n =? 13))%nat.

Fixpoint skip_ws (s : string) : string :=
  match s with
  | "" => ""
  | String c rest => if is_ws c then skip_ws rest else s
  end.

Definition is_digit (c : ascii) : bool :=
  let n := nat_of_ascii c in ((48 <=? n) && (n <=? 57))%nat.

(** The longest prefix of digits, and what follows it. *)
Fixpoint take_digits (s : string) : string * string :=
  match s with
  | "" => ("", "")
  | String c rest =>
      if is_digit c
      then let '(ds, r) := take_digits rest in (String c ds, r)
      else ("", s)
  end.

Fixpoint Z_of_digits (acc : Z) (ds : string) : Z :=
  match ds with
  | "" => acc
  | String c rest =>
      Z_of_digits (10 * acc + Z.of_nat (nat_of_ascii c - 48))%Z rest
  end.

(** [after_prefix p s]: what follows [p] in [s], when [s] starts with [p]. *)
Fixpoint after_prefix (p s : string) : option string :=
  match p, s with
  | "", _ => Some s
  | String a p', String b s' => if Ascii.eqb a b then after_prefix p' s' else None
  | String _ _, "" => None
  end.

(** A number: an optional minus sign; then a single 0, or a digit from 1
    to 9 followed by any digits; then optionally a point and at least one
    digit; then optionally e or E, an optional sign and at least one
    digit. *)
Definition parse_number (s : string) : option (number * string) :=
  let '(neg, s1) :=
    match s with
    | String c r => if Ascii.eqb c "-" then (true, r) else (false, s)
    | "" => (false, s)
    end in
  let '(ip, s2) :=
    match s1 with
    | String c r => if Ascii.eqb c "0" then ("0", r) else take_digits s1
    | "" => ("", s1)
    end in
  if ip =? "" then None
  else
    let frac :=
      match s2 with
      | String c r =>
          if Ascii.eqb c "."
          then let '(fp, s3) := take_digits r in
               if fp =? "" then None else Some (fp, s3)
          else Some ("", s2)
      | "" => Some ("", s2)
      end in
    match frac with
    | None => None
    | Some (fp, s3) =>
        let expo :=
          match s3 with
          | String c r =>
              if Ascii.eqb c "e" || Ascii.eqb c "E" then
                let '(eneg, r1) :=
                  match r with
                  | String d r' =>
                      if Ascii.eqb d "-" then (true, r')
                      else if Ascii.eqb d "+" then (false, r')
                      else (false, r)
                  | "" => (false, r)
                  end in
                let '(ep, s4) := take_digits r1 in
                if ep =? "" then None
                else Some (if eneg then (- Z_of_digits 0 ep)%Z else Z_of_digits 0 ep, s4)
              else Some (0%Z, s3)
          | "" => Some (0%Z, s3)
          end in
        match expo with
        | None => None
        | Some (e, s4) =>
            let m := Z_of_digits 0 (ip ++ fp) in
            let q := (inject_Z m * pow10 (e - Z.of_nat (String.length fp)))%Q in
            Some (roundF (if neg then (- q)%Q else q), s4)
        end
    end.

Definition hex_value (c : ascii) : option nat :=
  let n := nat_of_ascii c in
  if ((48 <=? n) && (n <=? 57))%nat then Some (n - 48)%nat
  else if ((97 <=? n) && (n <=? 102))%nat then Some (n - 87)%nat
  else if ((65 <=? n) && (n <=? 70))%nat then Some (n - 55)%nat
  else None.

Definition escape_char (e : ascii) : option ascii :=
  let n := nat_of_ascii e in
  if (n =? 34)%nat then Some e
  else if (n =? 92)%nat then Some e
  else if Ascii.eqb e "/" then Some e
  else if Ascii.eqb e "b" then Some (ascii_of_nat 8)
  else if Ascii.eqb e "f" then Some (ascii_of_nat 12)
  else if Ascii.eqb e "n" then Some (ascii_of_nat 10)
  else if Ascii.eqb e "r" then Some (ascii_of_nat 13)
  else if Ascii.eqb e "t" then Some (ascii_of_nat 9)
  else None.

Definition cons_char (c : ascii) (r : option (string * string)) : option (string * string) :=
  match r with
  | Some (str, rest) => Some (String c str, rest)
  | None => None
  end.

(** The characters of a string literal, after its opening quote, up to
    and including the closing quote. *)
Fixpoint parse_chars (s : string) : option (string * string) :=
  match s with
  | "" => None
  | String c r =>
      if (nat_of_ascii c =? 34)%nat then Some ("", r)
      else if (nat_of_ascii c =? 92)%nat then
        match r with
        | "" => None
        | String e r' =>
            if Ascii.eqb e "u" then
              match r' with
              | String h1 (String h2 (String h3 (String h4 r''))) =>
                  match hex_value h1, hex_value h2, hex_value h3, hex_value h4 with
                  | Some 0%nat, Some 0%nat, Some a, Some b =>
                      cons_char (ascii_of_nat (16 * a + b)) (parse_chars r'')
                  | _, _, _, _ => None
                  end
              | _ => None
              end
            else
              match escape_char e with
              | Some x => cons_char x (parse_chars r')
              | None => None
              end
        end
      else if (nat_of_ascii c <? 32)%nat then None
      else cons_char c (parse_chars r)
  end.

(** Definition of a property by [JSON.parse]: a repeated key keeps its
    place and takes the later value. *)
Fixpoint obj_set (k : string) (j : json) (props : list (string * json))
  : list (string * json) :=
  match props with
  | [] => [(k, j)]
  | (k', j') :: rest =>
      if k' =? k then (k', j) :: rest else (k', j') :: obj_set k j rest
  end.

Fixpoint parse_value (fuel : nat) (s : string) {struct fuel} : option (json * string) :=
  match fuel with
  | O => None
  | S f =>
      match skip_ws s with
      | "" => None
      | String c r =>
          if Ascii.eqb c "n" then
            match after_prefix "ull" r with Some r' => Some (JNull, r') | None => None end
          else if Ascii.eqb c "t" then
            match after_prefix "rue" r with Some r' => Some (JBool true, r') | None => None end
          else if Ascii.eqb c "f" then
            match after_prefix "alse" r with Some r' => Some (JBool false, r') | None => None end
          else if (nat_of_ascii c =? 34)%nat then
            match parse_chars r with Some (str, r') => Some (JStr str, r') | None => None end
          else if Ascii.eqb c "[" then
            match skip_ws r with
            | String d r' =>
                if Ascii.eqb d "]" then Some (JArr [], r') else parse_elems f r []
            | "" => None
            end
          else if Ascii.eqb c "{" then
            match skip_ws r with
            | String d r' =>
                if Ascii.eqb d "}" then Some (JObj [], r') else parse_members f r []
            | "" => None
            end
          else
            match parse_number (String c r) with
            | Some (n, r') => Some (JNum n, r')
            | None => None
            end
      end
  end

with parse_elems (fuel : nat) (s : string) (acc : list json) {struct fuel}
  : option (json * string) :=
  match fuel with
  | O => None
  | S f =>
      match parse_value f s with
      | None => None
      | Some (j, r) =>
          match skip_ws r with
          | String d r' =>
              if Ascii.eqb d "," then parse_elems f r' (acc ++ [j])
              else if Ascii.eqb d "]" then Some (JArr (acc ++ [j]), r')
              else None
          | "" => None
          end
      end
  end

with parse_members (fuel : nat) (s : string) (acc : list (string * json)) {struct fuel}
  : option (json * string) :=
  match fuel with
  | O => None
  | S f =>
      match skip_ws s with
      | String q r =>
          if (nat_of_ascii q =? 34)%nat then
            match parse_chars r with
            | None => None
            | Some (k, r1) =>
                match skip_ws r1 with
                | String d r2 =>
                    if Ascii.eqb d ":" then
                      match parse_value f r2 with
                      | None => None
                      | Some (j, r3) =>
                          match skip_ws r3 with
                          | String d' r4 =>
                              if Ascii.eqb d' "," then parse_members f r4 (obj_set k j acc)
                              else if Ascii.eqb d' "}" then Some (JObj (obj_set k j acc), r4)
                              else None
                          | "" => None
                          end
                      end
                    else None
                | "" => None
                end
            end
          else None
      | "" => None
      end
  end.

Definition JSON_parse (text : string) : outcome json :=
  match parse_value (2 * String.length text + 2) text with
  | Some (j, rest) =>
      if skip_ws rest =? "" then Return j
      else Throw (SyntaxError "Unexpected non-whitespace character after JSON")
  | None => Throw (SyntaxError "Unexpected token in JSON")
  end.

End JS.


(* ================================================================== *)
(** * The effects of the client on its host *)
(* ================================================================== *)

Module Node.
Import JS.

(** The events of [DYBEvents], with their payloads. *)
Inductive event : Type :=
| connected
| disconnected
| error (err : exn)
| message (m : value)
| boatProperties (props : value)
| gameNotification (notification : value)
| compassDisplay (display : value).

Definition event_name (e : event) : string :=
  match e with
  | connected => "connected"
  | disconnected => "disconnected"
  | error _ => "error"
  | message _ => "message"
  | boatProperties _ => "boatProperties"
  | gameNotification _ => "gameNotification"
  | compassDisplay _ => "compassDisplay"
  end.

(** The three console streams, and what is passed to them. *)
Inductive stream : Type := Log | Warn | Err.

Inductive logged : Type :=
| LText (s : string)
| LValue (v : value)
| LError (e : exn).

(** What the host observes.  Sockets and timers are named by handles, in
    the order of their creation. *)
Inductive effect : Type :=
| console (to : stream) (args : list logged)
| emitted (e : event)
| socket_new (h : nat)
| socket_connect (h : nat) (port : number) (host : string)
| socket_write (h : nat) (data : string)
| socket_destroy (h : nat)
| setTimeout (h : nat) (delay : number)
| clearTimeout (h : nat).

End Node.

(* ================================================================== *)
(** * The client *)
(* ================================================================== *)

Module DYBClient.
Import JS Node.

(** ** Declarations of types.ts *)

(** [BPropType]: the five type codes; [BPropType_text] gives the string
    each one is. *)
Inductive BPropType : Type := tF | tI | tB | tJ | tS.

Definition BPropType_text (t : BPropType) : string :=
  match t with tF => "F" | tI => "I" | tB => "B" | tJ => "J" | tS => "S" end.

Record BPropMessage : Type := { t : BPropType; v : value }.

(** An outbound message, as [sendControl] builds it: keys with their
    envelopes.  (An inbound message is whatever [JSON.parse] returns; the
    annotation [DYBMessage] on it is not checked at run time.) *)
Definition DYBMessage : Type := list (string * BPropMessage).

Inductive ConnectionState : Type :=
| Disconnected
| Connecting
| Connected
| Error.

Definition ConnectionState_eqb (a b : ConnectionState) : bool :=
  match a, b with
  | Disconnected, Disconnected => true
  | Connecting, Connecting => true
  | Connected, Connected => true
  | Error, Error => true
  | _, _ => false
  end.

(** ** The fields of the class *)

(** [DYBClientOptions]: the optional fields may be left out. *)
Record DYBClientOptions : Type := {
  opt_host : string;
  opt_port : number;
  opt_autoReconnect : option bool;
  opt_reconnectDelay : option number;
  opt_groupId : option number
}.

(** [Required<DYBClientOptions>] *)
Record RequiredOptions : Type := {
  host : string;
  port : number;
  autoReconnect : bool;
  reconnectDelay : number;
  groupId : number
}.

Record DYBClient : Type := {
  socket : option nat;
  buffer : string;
  state : ConnectionState;
  reconnectTimer : option nat;
  options : RequiredOptions
}.

(** [a ?? b] *)
Definition nullish {A : Type} (a : option A) (b : A) : A :=
  match a with Some x => x | None => b end.

Definition constructor (o : DYBClientOptions) : DYBClient :=
  {| socket := None;
     buffer := "";
     state := Disconnected;
     reconnectTimer := None;
     options :=
       {| host := opt_host o;
          port := opt_port o;
          autoReconnect := nullish (opt_autoReconnect o) true;
          reconnectDelay := nullish (opt_reconnectDelay o) (Finite 5000);
          groupId := nullish (opt_groupId o) (Finite 1) |} |}.

(** ** The client in its host *)

(** The client object, what the host has observed so far (oldest first),
    the next unused handle, and the names of the events that have a
    subscriber. *)
Record world : Type := {
  this : DYBClient;
  trace : list effect;
  next_handle : nat;
  listeners : list string
}.

Definition initial (o : DYBClientOptions) : world :=
  {| this := constructor o; trace := []; next_handle := 0; listeners := [] |}.

(** A method is a computation on the world that returns or throws. *)
Definition M (A : Type) : Type := world -> outcome A * world.

Definition ret {A : Type} (a : A) : M A := fun w => (Return a, w).

Definition throw {A : Type} (e : exn) : M A := fun w => (Throw e, w).

Definition bind {A B : Type} (m : M A) (k : A -> M B) : M B :=
  fun w =>
    match m w with
    | (Return a, w') => k a w'
    | (Throw e, w') => (Throw e, w')
    end.

Declare Scope method_scope.
Delimit Scope method_scope with method.
Bind Scope method_scope with M.
Notation "x <- m ;; k" := (bind m (fun x => k))
  (at level 61, m at next level, right associativity) : method_scope.
Notation "m ;; k" := (bind m (fun _ => k))
  (at level 61, right associativity) : method_scope.
Local Open Scope method_scope.

(** [try { body } catch (error) { handler }] *)
Definition try_catch (body : M unit) (handler : exn -> M unit) : M unit :=
  fun w =>
    match body w with
    | (Return a, w') => (Return a, w')
    | (Throw e, w') => handler e w'
    end.

(** An expression of the host that returns or throws. *)
Definition lift {A : Type} (o : outcome A) : M A := fun w => (o, w).

Definition get_this : M DYBClient := fun w => (Return (this w), w).

Definition set_this (c : DYBClient) : M unit :=
  fun w => (Return tt, {| this := c; trace := trace w;
                          next_handle := next_handle w; listeners := listeners w |}).

Definition set_socket (x : option nat) : M unit :=
  c <- get_this ;;
  set_this {| socket := x; buffer := buffer c; state := state c;
              reconnectTimer := reconnectTimer c; options := options c |}.

Definition set_buffer (x : string) : M unit :=
  c <- get_this ;;
  set_this {| socket := socket c; buffer := x; state := state c;
              reconnectTimer := reconnectTimer c; options := options c |}.

Definition set_state (x : ConnectionState) : M unit :=
  c <- get_this ;;
  set_this {| socket := socket c; buffer := buffer c; state := x;
              reconnectTimer := reconnectTimer c; options := options c |}.

Definition set_reconnectTimer (x : option nat) : M unit :=
  c <- get_this ;;
  set_this {| socket := socket c; buffer := buffer c; state := state c;
              reconnectTimer := x; options := options c |}.

Definition tell (e : effect) : M unit :=
  fun w => (Return tt, {| this := this w; trace := trace w ++ [e];
                          next_handle := next_handle w; listeners := listeners w |}).

Definition fresh : M nat :=
  fun w => (Return (next_handle w),
            {| this := this w; trace := trace w;
               next_handle := S (next_handle w); listeners := listeners w |}).

Definition has_listener (name : string) : M bool :=
  fun w => (Return (existsb (String.eqb name) (listeners w)), w).

(** [this.on(event, listener)] *)
Definition on (name : string) : M unit :=
  fun w => (Return tt, {| this := this w; trace := trace w;
                          next_handle := next_handle w;
                          listeners := name :: listeners w |}).

(** [this.emit(event, ...args)].  An [error] event without a subscriber is
    thrown by the emitter instead of being delivered. *)
Definition emit (e : event) : M unit :=
  match e with
  | error err =>
      heard <- has_listener "error" ;;
      if heard then tell (emitted e) else throw err
  | _ => tell (emitted e)
  end.

Definition console_log (args : list logged) : M unit := tell (console Log args).
Definition console_warn (args : list logged) : M unit := tell (console Warn args).
Definition console_error (args : list logged) : M unit := tell (console Err args).

(** ** The methods *)

Definition newline : string := String (ascii_of_nat 10) "".
Definition null_byte : string := String (ascii_of_nat 0) "".

(** [JSON.stringify(message)] for a message built by [sendControl]: each
    envelope is written with its [t], then its [v] unless the value is one
    that [JSON.stringify] leaves out. *)
Definition stringify_envelope (m : BPropMessage) : outcome string :=
  match stringify_property (v m) with
  | Throw e => Throw e
  | Return None =>
      Return ("{" ++ quote "t" ++ ":" ++ quote (BPropType_text (t m)) ++ "}")
  | Return (Some text) =>
      Return ("{" ++ quote "t" ++ ":" ++ quote (BPropType_text (t m)) ++ "," ++
              quote "v" ++ ":" ++ text ++ "}")
  end.

Fixpoint stringify_entries (message : DYBMessage) : outcome (list string) :=
  match message with
  | [] => Return []
  | (key, m) :: rest =>
      match stringify_envelope m with
      | Throw e => Throw e
      | Return text =>
          match stringify_entries rest with
          | Throw e => Throw e
          | Return texts => Return ((quote key ++ ":" ++ text) :: texts)
          end
      end
  end.

Definition JSON_stringify (message : DYBMessage) : outcome string :=
  match stringify_entries message with
  | Throw e => Throw e
  | Return texts => Return ("{" ++ join_with "," texts ++ "}")
  end.

(** [getTypeCode] *)
Definition getTypeCode (value : value) : BPropType :=
  if typeof value =? "number" then
    (if Number_isInteger value then tI else tF)
  else if typeof value =? "boolean" then tB
  else if typeof value =? "string" then tS
  else if typeof value =? "object" then tJ
  else tS.

(** [clamp] *)
Definition clamp (value min max : number) : number :=
  Math_max [min; Math_min [max; value]].

Definition isConnected (c : DYBClient) : bool :=
  ConnectionState_eqb (state c) Connected.

(** [connect]: the guard, then a new socket.  The four handlers that the
    method registers on the socket are [on_socket_connect],
    [on_socket_data], [on_socket_error] and [on_socket_close] below.
    The last call, [socket.connect], is that of a client whose port
    passes the check of the port that it starts with. *)
Definition connect : M unit :=
  c <- get_this ;;
  if ConnectionState_eqb (state c) Connected
     || ConnectionState_eqb (state c) Connecting
  then console_warn [LText "Already connected or connecting"]
  else
    set_state Connecting ;;
    console_log [LText ("Connecting to " ++ host (options c) ++ ":" ++
                        Number_toString (port (options c)) ++ "...")] ;;
    h <- fresh ;;
    tell (socket_new h) ;;
    set_socket (Some h) ;;
    tell (socket_connect h (port (options c)) (host (options c))).

(** [disconnect] *)
Definition disconnect : M unit :=
  c <- get_this ;;
  (match reconnectTimer c with
   | Some timer => tell (clearTimeout timer) ;; set_reconnectTimer None
   | None => ret tt
   end) ;;
  (match socket c with
   | Some h => tell (socket_destroy h) ;; set_socket None
   | None => ret tt
   end) ;;
  set_state Disconnected.

(** [scheduleReconnect].  The callback handed to [setTimeout] is
    [on_reconnect_timer] below. *)
Definition scheduleReconnect : M unit :=
  c <- get_this ;;
  match reconnectTimer c with
  | Some _ => ret tt
  | None =>
      console_log [LText ("Reconnecting in " ++
                          Number_toString (div_finite (reconnectDelay (options c)) 1000)
                          ++ " seconds...")] ;;
      timer <- fresh ;;
      tell (setTimeout timer (reconnectDelay (options c))) ;;
      set_reconnectTimer (Some timer)
  end.

(** The callback of the reconnect timer. *)
Definition on_reconnect_timer : M unit :=
  set_reconnectTimer None ;;
  connect.

(** [sendMessage] *)
Definition sendMessage (message : DYBMessage) : M unit :=
  c <- get_this ;;
  match isConnected c, socket c with
  | true, Some h =>
      try_catch
        (json <- lift (JSON_stringify message) ;;
         let data := Number_toString (groupId (options c)) ++ json ++ null_byte in
         tell (socket_write h data) ;;
         console_log [LText ("-> SENT: " ++ json)])
        (fun error => console_error [LText "Error sending message:"; LError error])
  | _, _ => console_warn [LText "Cannot send message: not connected"]
  end.

(** [sendControl] *)
Definition sendControl (key : string) (value : value) : M unit :=
  let type := getTypeCode value in
  let message : DYBMessage := [(key, {| t := type; v := value |})] in
  sendMessage message.

Definition sendRudder (value : number) : M unit :=
  sendControl "BoatRuder" (VData (JNum (clamp value (Finite (-1)) (Finite 1)))).

Definition sendThrottle (value : number) (engine : number) : M unit :=
  let key := "BoatThrottle" ++ Number_toString engine in
  sendControl key (VData (JNum (clamp value (Finite (-1)) (Finite 1)))).

(** The default of the parameter [engine]. *)
Definition default_engine : number := Finite 0.

Definition sendEngineState (on : bool) : M unit :=
  sendControl "BoatEngineOn" (VData (JBool on)).

Definition sendBowThruster (value : number) : M unit :=
  sendControl "BowThruster"
    (VData (JNum (Math_max [Finite (-1); Math_min [Finite 1; Math_round value]]))).

Definition sendAutopilot (active : bool) : M unit :=
  sendControl "AP_active" (VData (JBool active)).

Definition sendHeadingAdjust (degrees : number) : M unit :=
  sendControl "AP_set" (VData (JNum degrees)).

Definition sendSailControl (sail : string) (value : number) : M unit :=
  let key := "Sail." ++ sail in
  sendControl key (VData (JNum (clamp value (Finite 0) (Finite 1)))).

(** [parseSpecialMessages] is three blocks in a row, one for each key it
    looks at; each block is given a name here.  A property that the source
    reads several times in a row is read once: nothing runs between the
    reads. *)

(** The block of [PlayerMessenger] (game to remote). *)
Definition parsePlayerMessenger (message : value) : M unit :=
  playerMessenger <- lift (Get message "PlayerMessenger") ;;
  if truthy playerMessenger then
    tag <- lift (Get playerMessenger "t") ;;
    if strict_eq_string tag "J" then
      messenger <- lift (Get playerMessenger "v") ;;
      props <- lift (Get messenger "Props") ;;
      (if truthy props then
         console_log [LText "Boat Properties:"; LValue props] ;;
         emit (boatProperties props)
       else ret tt) ;;
      msg <- lift (Get messenger "Msg") ;;
      if truthy msg then
        type <- lift (Get msg "Type") ;;
        type_text <- lift (ToString type) ;;
        noti <- lift (Get msg "Noti") ;;
        noti_text <- lift (ToString noti) ;;
        console_log [LText ("Game Event: " ++ type_text ++ "." ++ noti_text)] ;;
        emit (gameNotification msg)
      else ret tt
    else ret tt
  else ret tt.

(** The block of [AP_display] (autopilot display). *)
Definition parseAPDisplay (message : value) : M unit :=
  ap_display <- lift (Get message "AP_display") ;;
  if truthy ap_display then
    tag <- lift (Get ap_display "t") ;;
    if strict_eq_string tag "S" then
      display <- lift (Get ap_display "v") ;;
      display_text <- lift (ToString display) ;;
      console_log [LText ("Compass: " ++ display_text)] ;;
      emit (compassDisplay display)
    else ret tt
  else ret tt.

(** The block of [AP_active] (autopilot active state). *)
Definition parseAPActive (message : value) : M unit :=
  ap_active <- lift (Get message "AP_active") ;;
  if truthy ap_active then
    tag <- lift (Get ap_active "t") ;;
    if strict_eq_string tag "B" then
      active <- lift (Get ap_active "v") ;;
      console_log [LText ("Autopilot: " ++ (if truthy active then "ON" else "OFF"))]
    else ret tt
  else ret tt.

Definition parseSpecialMessages (message : value) : M unit :=
  parsePlayerMessenger message ;;
  parseAPDisplay message ;;
  parseAPActive message.

Section WithParser.

(** [JSON.parse], a function of the host. *)
Variable JSON_parse : string -> outcome json.

(** [processMessage] *)
Definition processMessage (line : string) : M unit :=
  try_catch
    (if (String.length line <? 2)%nat then ret tt
     else
       let groupId := charAt0 line in
       let jsonStr := substring1 line 1 in
       console_log [LText ("<- RECV [Group " ++ groupId ++ "]: " ++ jsonStr)] ;;
       message <- lift (JSON_parse jsonStr) ;;
       emit (Node.message (VData message)) ;;
       parseSpecialMessages (VData message))
    (fun error => console_error [LText "Error parsing message:"; LError error]).

(** The loop of [handleData]; [fuel] bounds its iterations. *)
Fixpoint handleData_loop (fuel : nat) : M unit :=
  match fuel with
  | O => ret tt
  | S fuel' =>
      c <- get_this ;;
      if includes (buffer c) newline then
        let lineEnd := indexOf (buffer c) newline in
        let line := substring2 (buffer c) 0 lineEnd in
        set_buffer (substring1 (buffer c) (lineEnd + 1)) ;;
        (if (0 <? String.length line)%nat then processMessage line else ret tt) ;;
        handleData_loop fuel'
      else ret tt
  end.

(** [handleData].  Every iteration of the loop removes at least one
    character from the buffer, so the length of the buffer bounds the
    iterations. *)
Definition handleData (data : string) : M unit :=
  c <- get_this ;;
  set_buffer (buffer c ++ data) ;;
  handleData_loop (String.length (buffer c ++ data)).

(** ** The handlers registered on the socket *)

Definition on_socket_connect : M unit :=
  set_state Connected ;;
  console_log [LText "Connected to game server"] ;;
  emit connected.

(** [data] is the text of the chunk, that is [data.toString()]. *)
Definition on_socket_data (data : string) : M unit :=
  handleData data.

Definition on_socket_error (err : exn) : M unit :=
  set_state Error ;;
  console_error [LText "Socket error:";
                 LText (match err with
                        | SyntaxError m | TypeError m | PlainError m => m
                        end)] ;;
  emit (error err).

Definition on_socket_close : M unit :=
  c <- get_this ;;
  let wasConnected := ConnectionState_eqb (state c) Connected in
  set_state Disconnected ;;
  console_log [LText "Disconnected from game server"] ;;
  emit disconnected ;;
  if autoReconnect (options c) && wasConnected
  then scheduleReconnect
  else ret tt.

(** ** The client driven by its environment *)

(** What can happen to a client: a call of its public surface, an event
    of its socket, or its reconnect timer firing. *)
Inductive input : Type :=
| call_on (name : string)
| call_connect
| call_disconnect
| call_sendControl (key : string) (value : value)
| call_sendRudder (value : number)
| call_sendThrottle (value : number) (engine : option number)
| call_sendEngineState (on : bool)
| call_sendBowThruster (value : number)
| call_sendAutopilot (active : bool)
| call_sendHeadingAdjust (degrees : number)
| call_sendSailControl (sail : string) (value : number)
| socket_connect_event
| socket_data_event (data : string)
| socket_error_event (err : exn)
| socket_close_event
| timer_event.

(** The timer can only fire while it is pending, which is while
    [reconnectTimer] holds its handle. *)
Definition step (i : input) : M unit :=
  match i with
  | call_on name => on name
  | call_connect => connect
  | call_disconnect => disconnect
  | call_sendControl key value => sendControl key value
  | call_sendRudder value => sendRudder value
  | call_sendThrottle value engine => sendThrottle value (nullish engine default_engine)
  | call_sendEngineState b => sendEngineState b
  | call_sendBowThruster value => sendBowThruster value
  | call_sendAutopilot active => sendAutopilot active
  | call_sendHeadingAdjust degrees => sendHeadingAdjust degrees
  | call_sendSailControl sail value => sendSailControl sail value
  | socket_connect_event => on_socket_connect
  | socket_data_event data => on_socket_data data
  | socket_error_event err => on_socket_error err
  | socket_close_event => on_socket_close
  | timer_event =>
      c <- get_this ;;
      match reconnectTimer c with
      | Some _ => on_reconnect_timer
      | None => ret tt
      end
  end.

(** A run stops at the first exception that nothing catches. *)
Fixpoint run (inputs : list input) : M unit :=
  match inputs with
  | [] => ret tt
  | i :: rest => step i ;; run rest
  end.

End WithParser.

End DYBClient.


(* ================================================================== *)
(** * Vocabulary of the properties *)
(* ================================================================== *)

Import JS Node DYBClient.
Local Open Scope method_scope.

(** ** Reading a world *)

(** The world [w] after the host has observed [effs] more. *)
Definition log_more (w : world) (effs : list effect) : world :=
  {| this := this w; trace := trace w ++ effs;
     next_handle := next_handle w; listeners := listeners w |}.

(** The world [w] with another buffer. *)
Definition with_buffer (b : string) (w : world) : world :=
  {| this := {| socket := socket (this w); buffer := b; state := state (this w);
                reconnectTimer := reconnectTimer (this w);
                options := options (this w) |};
     trace := trace w; next_handle := next_handle w; listeners := listeners w |}.

(** The events among some effects, in their order. *)
Fixpoint events_of (effs : list effect) : list event :=
  match effs with
  | [] => []
  | emitted e :: rest => e :: events_of rest
  | _ :: rest => events_of rest
  end.

(** The transports opened among some effects. *)
Fixpoint transports_opened (effs : list effect) : nat :=
  match effs with
  | [] => 0
  | socket_connect _ _ _ :: rest => S (transports_opened rest)
  | _ :: rest => transports_opened rest
  end.

(** The timers armed among some effects, with their delays. *)
Fixpoint timers_set (effs : list effect) : list (nat * number) :=
  match effs with
  | [] => []
  | setTimeout h d :: rest => (h, d) :: timers_set rest
  | _ :: rest => timers_set rest
  end.

(** What was written to the transport among some effects. *)
Fixpoint written (effs : list effect) : list string :=
  match effs with
  | [] => []
  | socket_write _ data :: rest => data :: written rest
  | _ :: rest => written rest
  end.

(** A computation that does nothing but let the host observe [effs], and
    ends in [o]. *)
Definition logs_only {A : Type} (m : M A) (o : outcome A) (effs : list effect) : Prop :=
  forall w, m w = (o, log_more w effs).

Definition logger {A : Type} (m : M A) : Prop :=
  exists o effs, logs_only m o effs.

(** ** Writing texts and numbers *)

(** A text in which every apostrophe stands for a double quote. *)
Fixpoint quoted (s : string) : string :=
  match s with
  | "" => ""
  | String c r =>
      String (if (nat_of_ascii c =? 39)%nat then ascii_of_nat 34 else c) (quoted r)
  end.

(** The number that a numeric literal denotes. *)
Definition literal (text : string) : number :=
  match parse_number text with
  | Some (n, "") => n
  | _ => NaN
  end.

(** ** Order on numbers *)

(** [x <= y] on numbers as extended reals; [NaN] is below and above
    nothing. *)
Definition num_le (x y : number) : Prop :=
  match x, y with
  | NaN, _ | _, NaN => False
  | NegInfinity, _ => True
  | _, PosInfinity => True
  | PosInfinity, _ => False
  | _, NegInfinity => False
  | Finite p, Finite q => (p <= q)%Q
  end.

Definition num_lt (x y : number) : Prop :=
  match x, y with
  | NaN, _ | _, NaN => False
  | _, NegInfinity => False
  | NegInfinity, _ => True
  | PosInfinity, _ => False
  | _, PosInfinity => True
  | Finite p, Finite q => (p < q)%Q
  end.

(** ** Frames *)

(** The complete lines of a text, and what follows the last newline. *)
Fixpoint split_lines (s : string) : list string * string :=
  match s with
  | "" => ([], "")
  | String c rest =>
      let '(lines, remainder) := split_lines rest in
      if (nat_of_ascii c =? 10)%nat then ("" :: lines, remainder)
      else
        match lines with
        | [] => ([], String c remainder)
        | l :: ls => (String c l :: ls, remainder)
        end
  end.

(** The frames handed to [processMessage]: the lines that are not
    empty. *)
Definition frames (lines : list string) : list string :=
  filter (fun l => (0 <? String.length l)%nat) lines.

(** [processMessage] on each frame in turn. *)
Fixpoint processAll (JSON_parse : string -> outcome json) (fs : list string) : M unit :=
  match fs with
  | [] => ret tt
  | f :: rest => processMessage JSON_parse f ;; processAll JSON_parse rest
  end.

(** What the host observes when [processMessage] runs on a frame: the
    effects of the call on a world that has observed nothing yet. *)
Definition blank : world :=
  initial {| opt_host := ""; opt_port := Finite 0; opt_autoReconnect := None;
             opt_reconnectDelay := None; opt_groupId := None |}.

Definition frame_effects (JSON_parse : string -> outcome json) (line : string)
  : list effect :=
  trace (snd (processMessage JSON_parse line blank)).

(** The effects of the frames among some lines, in order. *)
Definition frames_effects (P : string -> outcome json) (lines : list string)
  : list effect :=
  List.concat (map (frame_effects P) (frames lines)).

(** ** Shapes of inbound data *)

(** [BoatProperties] of types.ts. *)
Definition Props_shape (j : json) : Prop :=
  exists props n b1 b2 b3,
    j = JObj props /\
    lookup "EngineCount" props = Some (JNum n) /\
    lookup "HasThrusters" props = Some (JBool b1) /\
    lookup "HasLoPowerSwitch" props = Some (JBool b2) /\
    lookup "HasSails" props = Some (JBool b3).

(** [GameNotification] of types.ts. *)
Definition Msg_shape (j : json) : Prop :=
  exists props type noti,
    j = JObj props /\
    lookup "Type" props = Some (JStr type) /\
    lookup "Noti" props = Some (JStr noti).

(** A message that carries, under the key [PlayerMessenger], an envelope
    of tag [tag] whose value holds [props] under [Props] and [msg] under
    [Msg]. *)
Definition messenger_with (m : json) (tag : value) (props msg : json) : Prop :=
  exists fields envelope payload,
    m = JObj fields /\
    lookup "PlayerMessenger" fields = Some (JObj envelope) /\
    Get (VData (JObj envelope)) "t" = Return tag /\
    lookup "v" envelope = Some (JObj payload) /\
    lookup "Props" payload = Some props /\
    lookup "Msg" payload = Some msg.

(** The [{t, v}] shape of an envelope. *)
Definition envelope_shape (j : json) : bool :=
  match j with
  | JObj fields =>
      match lookup "t" fields, lookup "v" fields with
      | Some _, Some _ => true
      | _, _ => false
      end
  | _ => false
  end.

(** A message all of whose entries have the shape of an envelope. *)
Definition well_shaped (m : json) : bool :=
  match m with
  | JObj fields => forallb (fun kv => envelope_shape (snd kv)) fields
  | _ => false
  end.

Definition is_specialized (e : event) : bool :=
  match e with
  | boatProperties _ | gameNotification _ => true
  | _ => false
  end.

Definition is_compassDisplay (e : event) : bool :=
  match e with
  | compassDisplay _ => true
  | _ => false
  end.

(** What a computation lets the host observe, and how it ends, on a
    world that has observed nothing yet. *)
Definition block_effects {A : Type} (m : M A) : list effect := trace (snd (m blank)).
Definition block_outcome {A : Type} (m : M A) : outcome A := fst (m blank).

(** A frame is refused when it has fewer than two characters or when
    [JSON.parse] throws on its payload. *)
Definition decode_fails (P : string -> outcome json) (line : string) : Prop :=
  (String.length line < 2)%nat \/ exists e, P (substring1 line 1) = Throw e.

Definition is_console (e : effect) : bool :=
  match e with console _ _ => true | _ => false end.

(** Dispatch in order for a frame: on every world the call returns, and
    the events it emits are the message, the boat properties and the game
    notification, in this order, followed by at most one compass display
    (which the key [AP_display] of the same message may add). *)
Definition dispatched_in_order (P : string -> outcome json) (line : string)
    (m props msg : json) : Prop :=
  forall w, exists effs tail,
    processMessage P line w = (Return tt, log_more w effs) /\
    events_of effs =
      ([message (VData m); boatProperties (VData props); gameNotification (VData msg)]
       ++ tail)%list /\
    forallb is_compassDisplay tail = true /\
    (List.length tail <= 1)%nat.

(** An error is reported for a frame when [processMessage] logs the
    exception it caught. *)
Definition reports_error (effs : list effect) : Prop :=
  exists e, In (console Err [LText "Error parsing message:"; LError e]) effs.

(** A frame with the three keys the dispatcher knows. *)
Definition full_frame (tag : string) : string :=
  quoted "1{'PlayerMessenger':{'t':'" ++ tag ++
  quoted "','v':{'Props':{'EngineCount':1,'HasThrusters':false,'HasLoPowerSwitch':true,'HasSails':true},'Msg':{'Type':'Game','Noti':'Spawned'}}}}".

Definition full_props : json :=
  JObj [("EngineCount", JNum (Finite 1)); ("HasThrusters", JBool false);
        ("HasLoPowerSwitch", JBool true); ("HasSails", JBool true)].

Definition full_msg : json :=
  JObj [("Type", JStr "Game"); ("Noti", JStr "Spawned")].

Definition full_message (tag : string) : json :=
  JObj [("PlayerMessenger",
         JObj [("t", JStr tag);
               ("v", JObj [("Props", full_props); ("Msg", full_msg)])])].

(** A number is integer-valued when it is finite and equal to an
    integer. *)
Definition integer_valued (x : value) : Prop :=
  exists q z, x = VData (JNum (Finite q)) /\ (q == inject_Z z)%Q.

(** [c] is [x] clamped to the range from [lo] to [hi]. *)
Definition clamped_to (lo hi x c : number) : Prop :=
  num_le lo c /\ num_le c hi /\
  (num_lt lo x -> num_lt x hi -> c = x) /\
  (num_le hi x -> c = hi) /\
  (num_le x lo -> c = lo).

(** [c] is [x] rounded to the nearest integer (upwards from a half) and
    clamped to -1, 0, 1. *)
Definition rounded_to_unit (x c : number) : Prop :=
  (c = Finite (-1) \/ c = Finite 0 \/ c = Finite 1) /\
  (num_le (Finite (1 # 2)) x -> c = Finite 1) /\
  (num_le (Finite (- (1 # 2))) x -> num_lt x (Finite (1 # 2)) -> c = Finite 0) /\
  (num_lt x (Finite (- (1 # 2))) -> c = Finite (-1)).

(** A text whose first character is a digit. *)
Definition digit_first (s : string) : Prop :=
  exists c rest, s = String c rest /\ is_digit c = true.

(** The ports that [socket.connect] accepts: the integers from 0 to
    65535.  On any other port the call throws before a transport is
    opened. *)
Definition valid_port (p : number) : bool :=
  match p with
  | Finite q => is_integral p && Qle_bool 0 q && Qle_bool q 65535
  | _ => false
  end.

(** The [message] of an error. *)
Definition message_of (e : exn) : string :=
  match e with
  | SyntaxError m | TypeError m | PlainError m => m
  end.

(** The effects of a clean-up: what [disconnect] lets the host observe
    on a client with this timer and this socket. *)
Definition cleanup_effects (timer sock : option nat) : list effect :=
  (match timer with Some h => [clearTimeout h] | None => [] end ++
   match sock with Some h => [socket_destroy h] | None => [] end)%list.

(** Lines put back together: each followed by a newline, then the
    remainder. *)
Fixpoint unsplit (lines : list string) (remainder : string) : string :=
  match lines with
  | [] => remainder
  | l :: ls => l ++ newline ++ unsplit ls remainder
  end.

(** Computations that change nothing of the world but its trace, and add
    to it only effects of a given kind. *)
Definition quiet (ok : effect -> bool) {A : Type} (m : M A) : Prop :=
  forall w, exists effs, snd (m w) = log_more w effs /\ forallb ok effs = true.

(** What the inbound path may let the host observe: console output and
    emitted events. *)
Definition inbound_kind (e : effect) : bool :=
  match e with
  | console _ _ => true
  | emitted _ => true
  | _ => false
  end.

(** A text without control characters: every code unit is 32 or more. *)
Fixpoint printable (s : string) : bool :=
  match s with
  | "" => true
  | String c r => (32 <=? nat_of_ascii c)%nat && printable r
  end.

(** The socket that is live after some effects, from the one that is live
    before them: the socket created last, unless it has been destroyed
    since. *)
Fixpoint live_after (cur : option nat) (effs : list effect) : option nat :=
  match effs with
  | [] => cur
  | socket_new h :: rest => live_after (Some h) rest
  | socket_destroy h :: rest =>
      live_after (match cur with
                  | Some h' => if (h =? h')%nat then None else cur
                  | None => None
                  end) rest
  | _ :: rest => live_after cur rest
  end.

(** Whether every write among some effects goes to the socket that is
    live when the write is made. *)
Fixpoint writes_to_live (cur : option nat) (effs : list effect) : bool :=
  match effs with
  | [] => true
  | socket_new h :: rest => writes_to_live (Some h) rest
  | socket_destroy h :: rest =>
      writes_to_live (match cur with
                      | Some h' => if (h =? h')%nat then None else cur
                      | None => None
                      end) rest
  | socket_write h _ :: rest =>
      match cur with
      | Some h' => (h =? h')%nat && writes_to_live cur rest
      | None => false
      end
  | _ :: rest => writes_to_live cur rest
  end.

(** A computation keeps track of its socket when, from any world, it only
    adds to the trace, writes to the live socket only, and ends with the
    live socket in the field [socket]; the live socket at the start being
    the one in the field. *)
Definition tracks {A : Type} (m : M A) : Prop :=
  forall w, exists effs,
    trace (snd (m w)) = (trace w ++ effs)%list /\
    writes_to_live (socket (this w)) effs = true /\
    live_after (socket (this w)) effs = socket (this (snd (m w))).

(* ================================================================== *)
(** * Properties *)
(* ================================================================== *)

(** ** Computations that only log *)

Lemma log_more_nil w : log_more w [] = w.
Proof.
  destruct w; unfold log_more; simpl. now rewrite app_nil_r.
Qed.

Lemma log_more_app w e1 e2 : log_more (log_more w e1) e2 = log_more w (e1 ++ e2).
Proof.
  unfold log_more; simpl. now rewrite app_assoc.
Qed.

Lemma logs_only_ret {A} (a : A) : logs_only (ret a) (Return a) [].
Proof. intros w. unfold ret. now rewrite log_more_nil. Qed.

Lemma logs_only_lift {A} (o : outcome A) : logs_only (lift o) o [].
Proof. intros w. unfold lift. now rewrite log_more_nil. Qed.

Lemma logs_only_tell e : logs_only (tell e) (Return tt) [e].
Proof. intros w. reflexivity. Qed.

Lemma logs_only_bind {A B} (m : M A) (k : A -> M B) a e1 o e2 :
  logs_only m (Return a) e1 -> logs_only (k a) o e2 ->
  logs_only (bind m k) o (e1 ++ e2).
Proof.
  intros H1 H2 w. unfold bind. rewrite H1, H2. now rewrite log_more_app.
Qed.

Lemma logs_only_bind_throw {A B} (m : M A) (k : A -> M B) x e1 :
  logs_only m (Throw x) e1 -> logs_only (bind m k) (Throw x) e1.
Proof.
  intros H1 w. unfold bind. now rewrite H1.
Qed.

Lemma logger_ret {A} (a : A) : logger (ret a).
Proof. eexists _, _. apply logs_only_ret. Qed.

Lemma logger_lift {A} (o : outcome A) : logger (lift o).
Proof. eexists _, _. apply logs_only_lift. Qed.

Lemma logger_tell e : logger (tell e).
Proof. eexists _, _. apply logs_only_tell. Qed.

Lemma logger_bind {A B} (m : M A) (k : A -> M B) :
  logger m -> (forall a, logger (k a)) -> logger (bind m k).
Proof.
  intros (o & e1 & H1) Hk. destruct o as [a | x].
  - destruct (Hk a) as (o2 & e2 & H2).
    exists o2, (e1 ++ e2)%list. eapply logs_only_bind; eauto.
  - exists (Throw x), e1. now apply logs_only_bind_throw.
Qed.

Lemma logger_if {A} (c : bool) (m1 m2 : M A) :
  logger m1 -> logger m2 -> logger (if c then m1 else m2).
Proof. now destruct c. Qed.

Lemma logger_try_catch body handler :
  logger body -> (forall e, logger (handler e)) -> logger (try_catch body handler).
Proof.
  intros (o & e1 & H1) Hh. destruct o as [[] | x].
  - exists (Return tt), e1. intros w. unfold try_catch. now rewrite H1.
  - destruct (Hh x) as (o2 & e2 & H2).
    exists o2, (e1 ++ e2)%list. intros w. unfold try_catch. rewrite H1, H2.
    now rewrite log_more_app.
Qed.

Ltac logger_steps :=
  repeat first
    [ apply logger_ret | apply logger_lift | apply logger_tell
    | apply logger_if
    | apply logger_bind; [ | intros ? ]
    | apply logger_try_catch; [ | intros ? ] ].

Lemma logger_parsePlayerMessenger m : logger (parsePlayerMessenger m).
Proof. unfold parsePlayerMessenger, console_log, emit. logger_steps. Qed.

Lemma logger_parseAPDisplay m : logger (parseAPDisplay m).
Proof. unfold parseAPDisplay, console_log, emit. logger_steps. Qed.

Lemma logger_parseAPActive m : logger (parseAPActive m).
Proof. unfold parseAPActive, console_log. logger_steps. Qed.

Lemma logger_parseSpecialMessages m : logger (parseSpecialMessages m).
Proof.
  unfold parseSpecialMessages.
  apply logger_bind; [apply logger_parsePlayerMessenger | intros _].
  apply logger_bind; [apply logger_parseAPDisplay | intros _].
  apply logger_parseAPActive.
Qed.

Lemma logger_processMessage P line : logger (processMessage P line).
Proof.
  unfold processMessage, console_log, console_error, emit.
  apply logger_try_catch; [ | intros e; apply logger_tell ].
  apply logger_if; [apply logger_ret | ].
  apply logger_bind; [apply logger_tell | intros _].
  apply logger_bind; [apply logger_lift | intros m].
  apply logger_bind; [apply logger_tell | intros _].
  apply logger_parseSpecialMessages.
Qed.

(** [processMessage] always returns, and all it does is let the host
    observe the effects of the frame: it changes no field of the client. *)
Lemma processMessage_effects P line w :
  processMessage P line w = (Return tt, log_more w (frame_effects P line)).
Proof.
  destruct (logger_processMessage P line) as (o & effs & H).
  assert (Ho : o = Return tt).
  { specialize (H blank). unfold processMessage, try_catch in H.
    match type of H with
    | (match ?b with _ => _ end) = _ => destruct b as [[[] | x] w']
    end.
    - now inversion H.
    - unfold console_error, tell in H. now inversion H. }
  subst o. unfold frame_effects. rewrite (H blank). simpl. apply H.
Qed.

Lemma processAll_effects P fs w :
  processAll P fs w =
  (Return tt, log_more w (List.concat (map (frame_effects P) fs))).
Proof.
  revert w. induction fs as [| f fs IH]; intros w; simpl.
  - unfold ret. now rewrite log_more_nil.
  - unfold bind. rewrite processMessage_effects, IH. now rewrite log_more_app.
Qed.

(** ** Lines of a buffer *)

Lemma startsWith_newline c r :
  startsWith (String c r) newline = (nat_of_ascii c =? 10)%nat.
Proof.
  unfold newline. cbn [startsWith].
  replace (startsWith r "") with true by (now destruct r).
  rewrite andb_true_r.
  destruct (Nat.eqb_spec (nat_of_ascii c) 10) as [E | E].
  - apply Ascii.eqb_eq. rewrite <- (ascii_nat_embedding c), E. reflexivity.
  - apply Ascii.eqb_neq. intros <-. now apply E.
Qed.

Lemma find_newline_cons c r :
  find (String c r) newline =
  if (nat_of_ascii c =? 10)%nat then Some O else option_map S (find r newline).
Proof.
  change (find (String c r) newline)
    with (if startsWith (String c r) newline then Some O
          else option_map S (find r newline)).
  now rewrite startsWith_newline.
Qed.

(** Without a newline there is no complete line. *)
Lemma split_lines_none s :
  find s newline = None -> split_lines s = ([], s).
Proof.
  induction s as [| c r IH]; [reflexivity |].
  rewrite find_newline_cons. simpl.
  destruct (nat_of_ascii c =? 10)%nat; [discriminate |].
  destruct (find r newline); [discriminate |].
  intros _. now rewrite IH.
Qed.

(** With a first newline at [i], the first line is what precedes it, and
    the other lines are those of what follows it. *)
Lemma split_lines_some s i :
  find s newline = Some i ->
  (i < String.length s)%nat /\
  split_lines s =
    (String.substring 0 i s
       :: fst (split_lines (String.substring (S i) (String.length s - S i) s)),
     snd (split_lines (String.substring (S i) (String.length s - S i) s))).
Proof.
  revert i. induction s as [| c r IH]; intros i; [discriminate |].
  rewrite find_newline_cons.
  assert (Hall : forall u, String.substring 0 (String.length u) u = u).
  { induction u as [| a u IHu]; simpl; [reflexivity | now rewrite IHu]. }
  cbn [split_lines].
  destruct (nat_of_ascii c =? 10)%nat eqn:E.
  - intros [= <-]. split; [simpl; lia |].
    cbn [String.length]. rewrite Nat.sub_succ, Nat.sub_0_r.
    cbn [String.substring]. rewrite Hall.
    destruct (split_lines r); reflexivity.
  - destruct (find r newline) as [j |] eqn:F; [| discriminate].
    intros [= <-]. destruct (IH j eq_refl) as [Hj Hs].
    split; [simpl; lia |].
    rewrite Hs. cbn [String.length]. rewrite Nat.sub_succ.
    cbn [String.substring fst snd]. reflexivity.
Qed.

Lemma split_lines_count s :
  (List.length (fst (split_lines s)) <= String.length s)%nat.
Proof.
  induction s as [| c r IH]; simpl; [lia |].
  destruct (split_lines r) as [lines remainder]. simpl in IH.
  destruct (nat_of_ascii c =? 10)%nat; simpl; [lia |].
  destruct lines; simpl in *; lia.
Qed.
Lemma substring2_prefix s i :
  (i <= String.length s)%nat ->
  substring2 s 0 (Z.of_nat i) = String.substring 0 i s.
Proof.
  intros H. unfold substring2.
  replace (Z.min (Z.max 0 0) (Z.of_nat (String.length s))) with 0%Z by lia.
  replace (Z.min (Z.max (Z.of_nat i) 0) (Z.of_nat (String.length s)))
    with (Z.of_nat i) by lia.
  replace (Z.min 0 (Z.of_nat i)) with 0%Z by lia.
  replace (Z.max 0 (Z.of_nat i) - 0)%Z with (Z.of_nat i) by lia.
  now rewrite Nat2Z.id.
Qed.

Lemma substring1_suffix s i :
  (i < String.length s)%nat ->
  substring1 s (Z.of_nat i + 1) =
  String.substring (S i) (String.length s - S i) s.
Proof.
  intros H. unfold substring1, substring2.
  replace (Z.min (Z.max (Z.of_nat i + 1) 0) (Z.of_nat (String.length s)))
    with (Z.of_nat (S i)) by lia.
  replace (Z.min (Z.max (Z.of_nat (String.length s)) 0) (Z.of_nat (String.length s)))
    with (Z.of_nat (String.length s)) by lia.
  replace (Z.min (Z.of_nat (S i)) (Z.of_nat (String.length s)))
    with (Z.of_nat (S i)) by lia.
  replace (Z.max (Z.of_nat (S i)) (Z.of_nat (String.length s)) - Z.of_nat (S i))%Z
    with (Z.of_nat (String.length s - S i)) by lia.
  now rewrite !Nat2Z.id.
Qed.

Lemma with_buffer_same w : with_buffer (buffer (this w)) w = w.
Proof. now destruct w as [[] ? ? ?]. Qed.

(** The loop of [handleData], given fuel for every line of the buffer:
    each line that is not empty is processed, in order, and the buffer
    keeps what follows the last newline. *)
Lemma handleData_loop_spec P fuel :
  forall w,
    (List.length (fst (split_lines (buffer (this w)))) <= fuel)%nat ->
    handleData_loop P fuel w =
    (Return tt,
     log_more (with_buffer (snd (split_lines (buffer (this w)))) w)
              (frames_effects P (fst (split_lines (buffer (this w)))))).
Proof.
  induction fuel as [| fuel IH]; intros w Hfuel.
  - destruct (fst (split_lines (buffer (this w)))) eqn:E; [| simpl in Hfuel; lia].
    destruct (find (buffer (this w)) newline) as [i |] eqn:F.
    + apply split_lines_some in F. destruct F as [_ F]. rewrite F in E. discriminate.
    + apply split_lines_none in F. rewrite F. simpl.
      unfold frames_effects. simpl. now rewrite with_buffer_same, log_more_nil.
  - cbn [handleData_loop]. unfold bind at 1, get_this at 1. unfold includes, indexOf.
    destruct (find (buffer (this w)) newline) as [i |] eqn:F.
    + destruct (split_lines_some _ _ F) as [Hi Hs].
      rewrite substring2_prefix by lia. rewrite substring1_suffix by lia.
      rewrite Hs in *. cbn [fst snd] in *.
      set (line := String.substring 0 i (buffer (this w))) in *.
      set (rest := String.substring (S i) (String.length (buffer (this w)) - S i)
                     (buffer (this w))) in *.
      unfold bind, set_buffer, bind, get_this, set_this. simpl in Hfuel.
      unfold frames_effects. cbn [frames filter].
      destruct (0 <? String.length line)%nat.
      * rewrite processMessage_effects. rewrite IH by (simpl; lia).
        simpl. unfold frames_effects, log_more, with_buffer; simpl.
        now rewrite app_assoc.
      * unfold ret. rewrite IH by (simpl; lia).
        unfold frames_effects, log_more, with_buffer; simpl. reflexivity.
    + apply split_lines_none in F. rewrite F. unfold ret. simpl.
      unfold frames_effects. simpl. now rewrite with_buffer_same, log_more_nil.
Qed.

(** [handleData] runs its loop to the end: a chunk is appended to the
    buffer, every complete line that is not empty is processed in order,
    and the buffer keeps what follows the last newline. *)
Lemma handleData_spec P data w :
  handleData P data w =
  (Return tt,
   log_more (with_buffer (snd (split_lines (buffer (this w) ++ data))) w)
            (frames_effects P (fst (split_lines (buffer (this w) ++ data))))).
Proof.
  unfold handleData. unfold bind at 1, get_this at 1.
  unfold bind, set_buffer, bind, get_this, set_this.
  rewrite handleData_loop_spec by (simpl; apply split_lines_count).
  simpl. reflexivity.
Qed.

Lemma logger_at_blank {A} (m : M A) :
  logger m -> forall w, m w = (block_outcome m, log_more w (block_effects m)).
Proof.
  intros (o & effs & H) w. unfold block_outcome, block_effects.
  rewrite (H blank). simpl. apply H.
Qed.

Lemma events_of_app e1 e2 : events_of (e1 ++ e2) = (events_of e1 ++ events_of e2)%list.
Proof.
  induction e1 as [| e e1 IH]; [reflexivity |].
  destruct e; simpl; now rewrite IH.
Qed.

(** The effects of a frame that is too short: none. *)
Lemma frame_effects_short P line :
  (String.length line < 2)%nat -> frame_effects P line = [].
Proof.
  intros H. unfold frame_effects, processMessage, try_catch.
  apply Nat.ltb_lt in H. now rewrite H.
Qed.

(** The effects of a frame whose text is refused by [JSON.parse]: the
    line is logged, then the error. *)
Lemma frame_effects_refused P line e :
  (2 <= String.length line)%nat ->
  P (substring1 line 1) = Throw e ->
  frame_effects P line =
  [console Log [LText ("<- RECV [Group " ++ charAt0 line ++ "]: " ++ substring1 line 1)];
   console Err [LText "Error parsing message:"; LError e]].
Proof.
  intros H HP. unfold frame_effects, processMessage, try_catch.
  replace (String.length line <? 2)%nat with false by (symmetry; apply Nat.ltb_ge; lia).
  unfold bind, console_log, tell, lift. simpl. rewrite HP. reflexivity.
Qed.

(** The effects of a frame whose text [JSON.parse] accepts: the line is
    logged, the message is emitted, and then come the effects of
    [parseSpecialMessages], with the log of the exception it may throw. *)
Lemma frame_effects_decoded P line m :
  (2 <= String.length line)%nat ->
  P (substring1 line 1) = Return m ->
  frame_effects P line =
  ([console Log [LText ("<- RECV [Group " ++ charAt0 line ++ "]: " ++ substring1 line 1)];
    emitted (message (VData m))]
   ++ block_effects (parseSpecialMessages (VData m))
   ++ match block_outcome (parseSpecialMessages (VData m)) with
      | Return _ => []
      | Throw e => [console Err [LText "Error parsing message:"; LError e]]
      end)%list.
Proof.
  intros H HP. unfold frame_effects, processMessage, try_catch.
  replace (String.length line <? 2)%nat with false by (symmetry; apply Nat.ltb_ge; lia).
  unfold bind at 1, console_log at 1, tell at 1.
  unfold bind at 1, lift at 1. rewrite HP.
  unfold bind at 1, emit at 1, tell at 1.
  rewrite (logger_at_blank _ (logger_parseSpecialMessages (VData m))).
  destruct (block_outcome (parseSpecialMessages (VData m))) as [[] | x]; simpl.
  - now rewrite app_nil_r.
  - reflexivity.
Qed.

(** ** Framing *)

(** The lines of a line followed by a newline and more text. *)
Lemma split_lines_line bad rest :
  find bad newline = None ->
  split_lines (bad ++ newline ++ rest) =
  (bad :: fst (split_lines rest), snd (split_lines rest)).
Proof.
  induction bad as [| c r IH].
  - intros _. simpl. destruct (split_lines rest); reflexivity.
  - rewrite find_newline_cons.
    destruct (nat_of_ascii c =? 10)%nat eqn:E; [discriminate |].
    destruct (find r newline) eqn:F; [discriminate |].
    intros _. cbn [append split_lines]. rewrite (IH eq_refl), E. reflexivity.
Qed.

Lemma frames_effects_cons P line lines :
  frames_effects P (line :: lines) =
  (frame_effects P line ++ frames_effects P lines)%list.
Proof.
  unfold frames_effects. cbn [frames filter].
  destruct (0 <? String.length line)%nat eqn:E; [reflexivity |].
  rewrite frame_effects_short; [reflexivity |].
  apply Nat.ltb_ge in E. lia.
Qed.

(** C9.  A frame that fails to decode, because its text is not JSON or
    because it has fewer than two characters, is dealt with on its own: the
    call that processes it returns and lets the host observe console output
    only, so that no field of the client changes; the frames that follow it
    in the buffer are processed as if they had arrived on their own; and
    after the whole chunk the connection state and the socket are what they
    were. *)
Theorem C9_decode_failure_is_skipped
    (P : string -> outcome json) (w : world) (data bad rest : string) :
  buffer (this w) ++ data = bad ++ newline ++ rest ->
  find bad newline = None ->
  decode_fails P bad ->
  let logs := frame_effects P bad in
  processMessage P bad w = (Return tt, log_more w logs) /\
  forallb is_console logs = true /\
  handleData P data w = handleData P rest (log_more (with_buffer "" w) logs) /\
  state (this (snd (handleData P data w))) = state (this w) /\
  socket (this (snd (handleData P data w))) = socket (this w).
Proof.
  intros Hsplit Hline Hfail logs.
  split; [apply processMessage_effects |].
  split.
  { subst logs. destruct Hfail as [Hshort | [e He]].
    - now rewrite frame_effects_short.
    - destruct (Nat.lt_ge_cases (String.length bad) 2) as [Hs | Hl].
      + now rewrite frame_effects_short.
      + now rewrite (frame_effects_refused P bad e Hl He). }
  rewrite !handleData_spec. split; [| split; reflexivity].
  rewrite Hsplit. cbn [this log_more with_buffer buffer append].
  rewrite (split_lines_line bad rest Hline). cbn [fst snd].
  rewrite frames_effects_cons. subst logs.
  unfold log_more, with_buffer. simpl. now rewrite app_assoc.
Qed.

(** C4.  The chunk that carries two complete frames and the beginning of
    a third yields exactly those two frames and keeps the beginning in the
    buffer; the chunk that completes the third frame then yields exactly
    one frame, which is the kept beginning followed by the new text up to
    the newline, and leaves the buffer empty. *)
Theorem C4_partial_frame_is_retained (P : string -> outcome json) (w : world) :
  buffer (this w) = "" ->
  let chunk1 := quoted "1{'A':1}" ++ newline ++ quoted "2{'B':2}" ++ newline
                ++ quoted "3{'C':" in
  let chunk2 := "3}" ++ newline in
  let kept := quoted "3{'C':" in
  let w1 := snd (handleData P chunk1 w) in
  handleData P chunk1 w =
    processAll P [quoted "1{'A':1}"; quoted "2{'B':2}"] (with_buffer kept w) /\
  buffer (this w1) = kept /\
  handleData P chunk2 w1 = processAll P [kept ++ "3}"] (with_buffer "" w1) /\
  kept ++ "3}" = quoted "3{'C':3}".
Proof.
  intros Hempty chunk1 chunk2 kept w1.
  assert (H1 : split_lines ("" ++ chunk1) =
               ([quoted "1{'A':1}"; quoted "2{'B':2}"], kept))
    by (vm_compute; reflexivity).
  assert (H2 : split_lines (kept ++ chunk2) = ([kept ++ "3}"], ""))
    by (vm_compute; reflexivity).
  assert (Hw1 : buffer (this w1) = kept).
  { subst w1. rewrite handleData_spec, Hempty, H1. reflexivity. }
  repeat split.
  - rewrite handleData_spec, processAll_effects, Hempty, H1. reflexivity.
  - exact Hw1.
  - rewrite handleData_spec, processAll_effects, Hw1, H2. reflexivity.
Qed.

Lemma C9_witness :
  let w := initial {| opt_host := "localhost"; opt_port := Finite 2612;
                      opt_autoReconnect := None; opt_reconnectDelay := None;
                      opt_groupId := None |} in
  let bad := quoted "1{'A':" in
  let rest := quoted "2{'B':2}" ++ newline in
  handleData JSON_parse (bad ++ newline ++ rest) w = handleData JSON_parse rest
    (log_more (with_buffer "" w) (frame_effects JSON_parse bad)) /\
  events_of (trace (snd (handleData JSON_parse (bad ++ newline ++ rest) w))) =
    [message (VData (JObj [("B", JNum (Finite 2))]))].
Proof.
  intros w bad rest. split.
  - apply (C9_decode_failure_is_skipped JSON_parse w (bad ++ newline ++ rest) bad rest).
    + reflexivity.
    + reflexivity.
    + right. eexists. vm_compute. reflexivity.
  - vm_compute. reflexivity.
Defined.

Lemma C4_witness :
  let w := initial {| opt_host := "localhost"; opt_port := Finite 2612;
                      opt_autoReconnect := None; opt_reconnectDelay := None;
                      opt_groupId := None |} in
  let chunk1 := quoted "1{'A':1}" ++ newline ++ quoted "2{'B':2}" ++ newline
                ++ quoted "3{'C':" in
  let w1 := snd (handleData JSON_parse chunk1 w) in
  buffer (this w1) = quoted "3{'C':" /\
  events_of (trace w1) =
    [message (VData (JObj [("A", JNum (Finite 1))]));
     message (VData (JObj [("B", JNum (Finite 2))]))] /\
  events_of (trace (snd (handleData JSON_parse ("3}" ++ newline) w1))) =
    [message (VData (JObj [("A", JNum (Finite 1))]));
     message (VData (JObj [("B", JNum (Finite 2))]));
     message (VData (JObj [("C", JNum (Finite 3))]))].
Proof.
  intros w chunk1 w1.
  split; [apply (C4_partial_frame_is_retained JSON_parse w eq_refl) |].
  split; vm_compute; reflexivity.
Defined.

(** ** Dispatch *)

Lemma block_bind {A B} (m : M A) (k : A -> M B) :
  logger m ->
  bind m k blank =
  match block_outcome m with
  | Return a => k a (log_more blank (block_effects m))
  | Throw e => (Throw e, log_more blank (block_effects m))
  end.
Proof.
  intros Hm. unfold bind. rewrite (logger_at_blank m Hm blank).
  now destruct (block_outcome m).
Qed.

(** The effects of two loggers in a row. *)
Lemma block_effects_bind {A B} (m : M A) (k : A -> M B) :
  logger m -> (forall a, logger (k a)) ->
  block_effects (bind m k) =
  (block_effects m ++
   match block_outcome m with
   | Return a => block_effects (k a)
   | Throw _ => []
   end)%list.
Proof.
  intros Hm Hk. unfold block_effects at 1. rewrite (block_bind m k Hm).
  destruct (block_outcome m) as [a | e].
  - rewrite (logger_at_blank (k a) (Hk a)). reflexivity.
  - simpl. now rewrite app_nil_r.
Qed.

(** The block of [AP_active] emits nothing. *)
Lemma parseAPActive_events m : events_of (block_effects (parseAPActive m)) = [].
Proof.
  unfold block_effects, parseAPActive, bind, lift, console_log, tell, ret.
  destruct (Get m "AP_active") as [a | e]; [| reflexivity].
  destruct (truthy a); [| reflexivity].
  destruct (Get a "t") as [tag | e]; [| reflexivity].
  destruct (strict_eq_string tag "B"); [| reflexivity].
  destruct (Get a "v") as [x | e]; reflexivity.
Qed.

(** The block of [AP_display] emits at most one event, a compass
    display. *)
Lemma parseAPDisplay_events m :
  events_of (block_effects (parseAPDisplay m)) = [] \/
  exists d, events_of (block_effects (parseAPDisplay m)) = [compassDisplay d].
Proof.
  unfold block_effects, parseAPDisplay, bind, lift, console_log, emit, tell, ret.
  destruct (Get m "AP_display") as [a | e]; [| now left].
  destruct (truthy a); [| now left].
  destruct (Get a "t") as [tag | e]; [| now left].
  destruct (strict_eq_string tag "S"); [| now left].
  destruct (Get a "v") as [x | e]; [| now left].
  destruct (ToString x) as [text | e]; [| now left].
  right. now exists x.
Qed.

(** The events of [parseSpecialMessages]: those of the block of
    [PlayerMessenger], followed, when that block returns, by at most one
    compass display. *)
Lemma parseSpecialMessages_events m :
  exists tail,
    events_of (block_effects (parseSpecialMessages m)) =
      (events_of (block_effects (parsePlayerMessenger m)) ++ tail)%list /\
    forallb is_compassDisplay tail = true /\
    (List.length tail <= 1)%nat.
Proof.
  unfold parseSpecialMessages.
  rewrite block_effects_bind;
    [ | apply logger_parsePlayerMessenger
      | intros _; apply logger_bind;
        [apply logger_parseAPDisplay | intros _; apply logger_parseAPActive] ].
  rewrite events_of_app.
  destruct (block_outcome (parsePlayerMessenger m)) as [[] | e].
  - rewrite block_effects_bind;
      [ | apply logger_parseAPDisplay | intros _; apply logger_parseAPActive ].
    rewrite events_of_app.
    assert (Hact : events_of
              match block_outcome (parseAPDisplay m) with
              | Return _ => block_effects (parseAPActive m)
              | Throw _ => []
              end = []).
    { destruct (block_outcome (parseAPDisplay m)); [apply parseAPActive_events | reflexivity]. }
    rewrite Hact, app_nil_r.
    destruct (parseAPDisplay_events m) as [H | [d H]]; rewrite H.
    + exists []. repeat split; simpl; lia.
    + exists [compassDisplay d]. repeat split; simpl; lia.
  - exists []. repeat split; simpl; lia.
Qed.

(** The events of a decoded frame: the message, then those of
    [parseSpecialMessages]. *)
Lemma frame_events_decoded P line m :
  (2 <= String.length line)%nat ->
  P (substring1 line 1) = Return m ->
  events_of (frame_effects P line) =
  message (VData m) :: events_of (block_effects (parseSpecialMessages (VData m))).
Proof.
  intros H HP. rewrite (frame_effects_decoded P line m H HP).
  cbn [app events_of]. rewrite events_of_app.
  destruct (block_outcome (parseSpecialMessages (VData m))); simpl; now rewrite app_nil_r.
Qed.

Lemma strict_eq_string_true x s :
  strict_eq_string x s = true -> x = VData (JStr s).
Proof.
  destruct x as [| [| | | s' | |] | | |]; try discriminate.
  simpl. intros H. apply String.eqb_eq in H. now subst.
Qed.

(** The block of [PlayerMessenger] emits something only for an envelope
    whose tag is the string J. *)
Lemma parsePlayerMessenger_gate m :
  events_of (block_effects (parsePlayerMessenger m)) <> [] ->
  exists pm, Get m "PlayerMessenger" = Return pm /\
             Get pm "t" = Return (VData (JStr "J")).
Proof.
  unfold block_effects, parsePlayerMessenger.
  unfold bind at 1, lift at 1.
  destruct (Get m "PlayerMessenger") as [pm | e]; [| now intros []].
  destruct (truthy pm); [| now intros []].
  unfold bind at 1, lift at 1.
  destruct (Get pm "t") as [tag | e] eqn:Et; [| now intros []].
  destruct (strict_eq_string tag "J") eqn:E; [| now intros []].
  intros _. exists pm. split; [reflexivity |].
  now rewrite Et, (strict_eq_string_true _ _ E).
Qed.

(** The block of [PlayerMessenger] on an envelope of tag J that holds a
    [Props] shape and a [Msg] shape. *)
Lemma parsePlayerMessenger_both m props msg :
  messenger_with m (VData (JStr "J")) props msg ->
  Props_shape props -> Msg_shape msg ->
  block_outcome (parsePlayerMessenger (VData m)) = Return tt /\
  events_of (block_effects (parsePlayerMessenger (VData m))) =
    [boatProperties (VData props); gameNotification (VData msg)].
Proof.
  intros (fields & envelope & payload & -> & Hpm & Htag & Hv & Hprops & Hmsg)
         (pf & n & b1 & b2 & b3 & -> & _)
         (mf & type & noti & -> & Htype & Hnoti).
  unfold block_outcome, block_effects, parsePlayerMessenger.
  unfold bind, lift, console_log, emit, tell, ret.
  cbn [Get]. rewrite Hpm. cbn [truthy]. simpl in Htag.
  destruct (lookup "t" envelope) as [tg |] eqn:Et; [| discriminate].
  injection Htag as ->. cbn [Get]. rewrite Et.
  cbn [strict_eq_string]. rewrite String.eqb_refl.
  rewrite Hv. cbn [Get]. rewrite Hprops. cbn [truthy]. rewrite Hmsg. cbn [truthy Get].
  rewrite Htype. cbn [ToString json_toString]. rewrite Hnoti.
  cbn [ToString json_toString]. split; reflexivity.
Qed.

(** C7, as amended.  For every successfully decoded inbound frame whose
    message holds, under the key [PlayerMessenger], an envelope of tag J
    with both a [Props] shape and a [Msg] shape, the events are dispatched
    in this order: one generic message event, then one boat-properties
    event, then one game-notification event. *)
Theorem C7_dispatch_order
    (P : string -> outcome json) (line : string) (m props msg : json) :
  (2 <= String.length line)%nat ->
  P (substring1 line 1) = Return m ->
  messenger_with m (VData (JStr "J")) props msg ->
  Props_shape props ->
  Msg_shape msg ->
  dispatched_in_order P line m props msg.
Proof.
  intros Hlen HP Hm Hprops Hmsg w.
  destruct (parsePlayerMessenger_both m props msg Hm Hprops Hmsg) as [_ Hboth].
  destruct (parseSpecialMessages_events (VData m)) as (tail & Hev & Htail & Hone).
  exists (frame_effects P line), tail.
  split; [apply processMessage_effects |].
  split; [| now split].
  rewrite (frame_events_decoded P line m Hlen HP), Hev, Hboth. reflexivity.
Qed.

Lemma C7_witness :
  dispatched_in_order JSON_parse (full_frame "J") (full_message "J") full_props full_msg.
Proof.
  apply (C7_dispatch_order JSON_parse (full_frame "J") (full_message "J")).
  - apply Nat.leb_le. vm_compute. reflexivity.
  - vm_compute. reflexivity.
  - exists [("PlayerMessenger",
             JObj [("t", JStr "J");
                   ("v", JObj [("Props", full_props); ("Msg", full_msg)])])],
           [("t", JStr "J"); ("v", JObj [("Props", full_props); ("Msg", full_msg)])],
           [("Props", full_props); ("Msg", full_msg)].
    repeat split.
  - exists [("EngineCount", JNum (Finite 1)); ("HasThrusters", JBool false);
            ("HasLoPowerSwitch", JBool true); ("HasSails", JBool true)],
           (Finite 1), false, true, true.
    repeat split.
  - exists [("Type", JStr "Game"); ("Noti", JStr "Spawned")], "Game", "Spawned".
    repeat split.
Defined.

(** C7 as the claim states it, without a condition on the tag of the
    envelope, fails: under an envelope of tag S the same [Props] and [Msg]
    shapes produce the generic message event only. *)
Lemma C7_counterexample :
  ~ (forall (P : string -> outcome json) (line : string) (m : json)
            (tag : value) (props msg : json),
        (2 <= String.length line)%nat ->
        P (substring1 line 1) = Return m ->
        messenger_with m tag props msg ->
        Props_shape props ->
        Msg_shape msg ->
        dispatched_in_order P line m props msg).
Proof.
  intros H.
  assert (Hm : messenger_with (full_message "S") (VData (JStr "S")) full_props full_msg).
  { exists [("PlayerMessenger",
             JObj [("t", JStr "S");
                   ("v", JObj [("Props", full_props); ("Msg", full_msg)])])],
           [("t", JStr "S"); ("v", JObj [("Props", full_props); ("Msg", full_msg)])],
           [("Props", full_props); ("Msg", full_msg)].
    repeat split. }
  assert (Hp : Props_shape full_props).
  { exists [("EngineCount", JNum (Finite 1)); ("HasThrusters", JBool false);
            ("HasLoPowerSwitch", JBool true); ("HasSails", JBool true)],
           (Finite 1), false, true, true.
    repeat split. }
  assert (Hg : Msg_shape full_msg).
  { exists [("Type", JStr "Game"); ("Noti", JStr "Spawned")], "Game", "Spawned".
    repeat split. }
  assert (Hlen : (2 <= String.length (full_frame "S"))%nat)
    by (apply Nat.leb_le; vm_compute; reflexivity).
  assert (HP : JSON_parse (substring1 (full_frame "S") 1) = Return (full_message "S"))
    by (vm_compute; reflexivity).
  destruct (H JSON_parse (full_frame "S") (full_message "S") _ _ _ Hlen HP Hm Hp Hg blank)
    as (effs & tail & Hrun & Hev & _).
  assert (Htrace : trace (snd (processMessage JSON_parse (full_frame "S") blank)) = effs)
    by (rewrite Hrun; reflexivity).
  rewrite <- Htrace in Hev. vm_compute in Hev. discriminate Hev.
Qed.

(** C10.  For every decoded inbound message, a boat-properties or a
    game-notification event is emitted only if the envelope under
    [PlayerMessenger] has the tag J; otherwise (another tag, whatever the
    envelope holds under [Props] and [Msg], or no envelope at all) the
    frame produces the generic message event and neither of the two: the
    only event that may follow the message is the compass display that
    the key [AP_display] adds. *)
Theorem C10_specialized_only_for_tag_J
    (P : string -> outcome json) (line : string) (m : json) (w : world) :
  (2 <= String.length line)%nat ->
  P (substring1 line 1) = Return m ->
  exists effs,
    processMessage P line w = (Return tt, log_more w effs) /\
    ((exists e, In e (events_of effs) /\ is_specialized e = true) ->
     exists pm, Get (VData m) "PlayerMessenger" = Return pm /\
                Get pm "t" = Return (VData (JStr "J"))) /\
    (~ (exists pm, Get (VData m) "PlayerMessenger" = Return pm /\
                   Get pm "t" = Return (VData (JStr "J"))) ->
     exists tail,
       events_of effs = message (VData m) :: tail /\
       forallb is_compassDisplay tail = true /\
       (List.length tail <= 1)%nat).
Proof.
  intros Hlen HP. exists (frame_effects P line).
  split; [apply processMessage_effects |].
  rewrite (frame_events_decoded P line m Hlen HP).
  destruct (parseSpecialMessages_events (VData m)) as (tail & Hev & Htail & Hone).
  rewrite Hev. split.
  - intros (e & Hin & Hspec).
    apply parsePlayerMessenger_gate. intros Hnone. rewrite Hnone in Hin.
    simpl in Hin. destruct Hin as [<- | Hin]; [discriminate |].
    rewrite forallb_forall in Htail. specialize (Htail e Hin).
    destruct e; discriminate.
  - intros Hother.
    destruct (events_of (block_effects (parsePlayerMessenger (VData m))))
      as [| e es] eqn:E.
    + exists tail. now repeat split.
    + destruct Hother. apply parsePlayerMessenger_gate. rewrite E. discriminate.
Qed.

Lemma C10_witness :
  exists effs,
    processMessage JSON_parse (full_frame "S") blank = (Return tt, log_more blank effs) /\
    events_of effs = [message (VData (full_message "S"))].
Proof.
  destruct (C10_specialized_only_for_tag_J JSON_parse (full_frame "S")
              (full_message "S") blank)
    as (effs & Hrun & _ & _).
  - apply Nat.leb_le. vm_compute. reflexivity.
  - vm_compute. reflexivity.
  - exists effs. split; [exact Hrun |].
    assert (Htrace : trace (snd (processMessage JSON_parse (full_frame "S") blank)) = effs)
      by (rewrite Hrun; reflexivity).
    rewrite <- Htrace. vm_compute. reflexivity.
Defined.

(** C2, as amended.  Inbound decoding does not look at the shape of the
    envelopes: every frame of at least two characters whose payload
    [JSON.parse] accepts is delivered as a generic message event that
    carries the parsed value as it is, whatever its shape and whatever the
    run-time type of a value next to its tag; the event comes right after
    the log of the line. *)
Theorem C2_decoded_value_passes_through
    (P : string -> outcome json) (line : string) (m : json) (w : world) :
  (2 <= String.length line)%nat ->
  P (substring1 line 1) = Return m ->
  exists rest,
    processMessage P line w =
    (Return tt,
     log_more w
       ([console Log [LText ("<- RECV [Group " ++ charAt0 line ++ "]: "
                             ++ substring1 line 1)];
         emitted (message (VData m))] ++ rest)%list).
Proof.
  intros Hlen HP. rewrite processMessage_effects.
  rewrite (frame_effects_decoded P line m Hlen HP).
  eexists. reflexivity.
Qed.

Lemma C2_witness :
  exists rest,
    processMessage JSON_parse (quoted "1{'BoatEngineOn':{'t':'I','v':'yes'}}") blank =
    (Return tt,
     log_more blank
       ([console Log [LText (quoted "<- RECV [Group 1]: {'BoatEngineOn':{'t':'I','v':'yes'}}")];
         emitted (message (VData (JObj [("BoatEngineOn",
                                         JObj [("t", JStr "I"); ("v", JStr "yes")])])))]
        ++ rest)%list).
Proof.
  apply (C2_decoded_value_passes_through JSON_parse
           (quoted "1{'BoatEngineOn':{'t':'I','v':'yes'}}")).
  - apply Nat.leb_le. vm_compute. reflexivity.
  - vm_compute. reflexivity.
Defined.

(** C2 as the claim states it fails: a decoded message without the
    [{t, v}] shape is not refused.  The frame [1{"A":5}] is delivered as a
    message event, and no error is reported for it. *)
Lemma C2_counterexample :
  ~ (forall (P : string -> outcome json) (line : string) (m : json),
        (2 <= String.length line)%nat ->
        P (substring1 line 1) = Return m ->
        well_shaped m = false ->
        reports_error (frame_effects P line)).
Proof.
  intros H.
  destruct (H JSON_parse (quoted "1{'A':5}") (JObj [("A", JNum (Finite 5))]))
    as (e & Hin).
  - apply Nat.leb_le. vm_compute. reflexivity.
  - vm_compute. reflexivity.
  - reflexivity.
  - vm_compute in Hin. destruct Hin as [Hin | [Hin | []]]; discriminate Hin.
Qed.

(** ** The connection state machine *)

Lemma transports_opened_app e1 e2 :
  transports_opened (e1 ++ e2) = (transports_opened e1 + transports_opened e2)%nat.
Proof.
  induction e1 as [| e e1 IH]; [reflexivity |].
  destruct e; simpl; now rewrite IH.
Qed.

(** [connect] while connecting or connected: a warning and nothing
    else. *)
Lemma connect_guarded w :
  state (this w) = Connecting \/ state (this w) = Connected ->
  connect w =
  (Return tt, log_more w [console Warn [LText "Already connected or connecting"]]).
Proof.
  intros H. unfold connect, bind, get_this.
  destruct H as [-> | ->]; reflexivity.
Qed.

(** [connect] in the two other states: the state becomes [Connecting]
    and one socket is created and asked to connect. *)
Lemma connect_opens w :
  state (this w) = Disconnected \/ state (this w) = Error ->
  connect w =
  (Return tt,
   {| this := {| socket := Some (next_handle w); buffer := buffer (this w);
                 state := Connecting; reconnectTimer := reconnectTimer (this w);
                 options := options (this w) |};
      trace := trace w ++
        [console Log [LText ("Connecting to " ++ host (options (this w)) ++ ":" ++
                             Number_toString (port (options (this w))) ++ "...")];
         socket_new (next_handle w);
         socket_connect (next_handle w) (port (options (this w)))
                        (host (options (this w)))];
      next_handle := S (next_handle w);
      listeners := listeners w |}).
Proof.
  intros H. unfold connect, bind, get_this.
  destruct H as [-> | ->]; simpl; unfold tell; simpl;
    rewrite <- !app_assoc; reflexivity.
Qed.

(** C8.  [connect] while the state is [Connecting] or [Connected] is a
    no-op with a warning: the call returns, no field of the client changes
    and the host observes the warning only, so that no transport is
    opened.  Two calls in immediate succession, from the states
    [Disconnected] or [Error] of a client whose port [socket.connect]
    accepts, therefore open exactly one transport. *)
Theorem C8_connect_twice_opens_one_transport (w : world) :
  (state (this w) = Connecting \/ state (this w) = Connected ->
   connect w =
   (Return tt, log_more w [console Warn [LText "Already connected or connecting"]])) /\
  (valid_port (port (options (this w))) = true ->
   state (this w) = Disconnected \/ state (this w) = Error ->
   let r := (connect ;; connect) w in
   fst r = Return tt /\
   state (this (snd r)) = Connecting /\
   transports_opened (trace (snd r)) = S (transports_opened (trace w))).
Proof.
  split; [apply connect_guarded |].
  intros _ H. unfold bind. rewrite (connect_opens w H).
  rewrite connect_guarded by (left; reflexivity).
  cbn [fst snd log_more this state trace]. repeat split.
  rewrite <- app_assoc, transports_opened_app. simpl. lia.
Qed.

Lemma C8_witness :
  let w := initial {| opt_host := "localhost"; opt_port := Finite 2612;
                      opt_autoReconnect := None; opt_reconnectDelay := None;
                      opt_groupId := None |} in
  let r := (connect ;; connect) w in
  fst r = Return tt /\
  state (this (snd r)) = Connecting /\
  transports_opened (trace (snd r)) = 1%nat.
Proof.
  intros w.
  exact (proj2 (C8_connect_twice_opens_one_transport w) eq_refl (or_introl eq_refl)).
Defined.

(** C1, as amended.  When the transport close event fires, the state
    becomes [Disconnected] and [disconnected] is emitted; a reconnect
    attempt is scheduled if and only if auto-reconnect is enabled, the
    state at that moment is [Connected] and no attempt is pending: it is
    then scheduled once, after the configured delay.  With an attempt
    already pending, that one is kept and none is added.  A close that
    arrives in any other state schedules none: in particular in the state
    [Error], whether or not the session had been [Connected] before the
    error. *)
Theorem C1_reconnect_on_close (w : world) :
  exists effs,
    fst (on_socket_close w) = Return tt /\
    trace (snd (on_socket_close w)) = (trace w ++ effs)%list /\
    state (this (snd (on_socket_close w))) = Disconnected /\
    events_of effs = [disconnected] /\
    (autoReconnect (options (this w)) = true ->
     state (this w) = Connected ->
     reconnectTimer (this w) = None ->
     timers_set effs = [(next_handle w, reconnectDelay (options (this w)))] /\
     reconnectTimer (this (snd (on_socket_close w))) = Some (next_handle w)) /\
    (autoReconnect (options (this w)) = true ->
     state (this w) = Connected ->
     forall pending, reconnectTimer (this w) = Some pending ->
     timers_set effs = [] /\
     reconnectTimer (this (snd (on_socket_close w))) = Some pending) /\
    (autoReconnect (options (this w)) = false \/ state (this w) <> Connected ->
     timers_set effs = [] /\
     reconnectTimer (this (snd (on_socket_close w))) = reconnectTimer (this w)).
Proof.
  destruct w as [[sock buf st timer [hst prt auto delay gid]] tr nh ls].
  unfold on_socket_close, scheduleReconnect, bind, get_this, set_state,
    set_reconnectTimer, bind, get_this, set_this, console_log, emit, tell, fresh, ret.
  cbn [this state options autoReconnect reconnectTimer reconnectDelay next_handle
       trace fst snd].
  destruct auto, st, timer as [pending |];
    cbn [andb ConnectionState_eqb this state options autoReconnect reconnectTimer
         reconnectDelay next_handle trace fst snd socket buffer listeners];
    eexists;
    (split; [reflexivity |]);
    (split; [rewrite <- ?app_assoc; cbn [app]; reflexivity |]);
    (split; [reflexivity |]);
    (split; [reflexivity |]);
    repeat split; intros;
    repeat match goal with
           | H : _ \/ _ |- _ => destruct H
           | H : ?x <> ?x |- _ => now destruct H
           end;
    try discriminate; try congruence; try reflexivity.
Qed.

Lemma C1_witness :
  let w := snd (run JSON_parse [call_connect; socket_connect_event]
             (initial {| opt_host := "localhost"; opt_port := Finite 2612;
                         opt_autoReconnect := None; opt_reconnectDelay := None;
                         opt_groupId := None |})) in
  exists effs,
    trace (snd (on_socket_close w)) = (trace w ++ effs)%list /\
    timers_set effs = [(1%nat, Finite 5000)] /\
    reconnectTimer (this (snd (on_socket_close w))) = Some 1%nat.
Proof.
  intros w.
  destruct (C1_reconnect_on_close w) as (effs & _ & Htrace & _ & _ & Hyes & _).
  destruct (Hyes eq_refl eq_refl eq_refl) as [Hset Htimer].
  exists effs. split; [exact Htrace |]. split; [exact Hset | exact Htimer].
Defined.

(** C1 as the claim states it fails on its last clause: a session that
    has reached [Connected] and then meets a socket error is in the state
    [Error] when the close event arrives, and the close schedules no
    reconnect, with auto-reconnect enabled. *)
Lemma C1_counterexample :
  ~ (forall (P : string -> outcome json) (o : DYBClientOptions)
            (history : list input) (e : exn),
        let r := run P (history ++ [socket_connect_event; socket_error_event e])
                     (initial o) in
        fst r = Return tt ->
        autoReconnect (options (this (snd r))) = true ->
        state (this (snd r)) = Error ->
        timers_set (trace (snd (on_socket_close (snd r))))
          <> timers_set (trace (snd r))).
Proof.
  intros H.
  apply (H JSON_parse
           {| opt_host := "localhost"; opt_port := Finite 2612;
              opt_autoReconnect := None; opt_reconnectDelay := None;
              opt_groupId := None |}
           [call_on "error"; call_connect]
           (PlainError "read ECONNRESET")); reflexivity.
Qed.

(** ** The outbound encoder *)

(** C3.  With the group id 1 (the default) and the default engine index,
    [sendThrottle(0.25)] on a connected client writes to its socket the
    text [1{"BoatThrottle0":{"t":"F","v":0.25}}] followed by one null byte,
    and nothing else: the only null byte is the last character and the
    text holds no newline. *)
Theorem C3_sendThrottle_payload (w : world) (h : nat) :
  state (this w) = Connected ->
  socket (this w) = Some h ->
  groupId (options (this w)) = Finite 1 ->
  let payload := quoted "1{'BoatThrottle0':{'t':'F','v':0.25}}" ++ null_byte in
  sendThrottle (literal "0.25") default_engine w =
    (Return tt,
     log_more w
       [socket_write h payload;
        console Log [LText (quoted "-> SENT: {'BoatThrottle0':{'t':'F','v':0.25}}")]]) /\
  indexOf payload null_byte = Z.of_nat (String.length payload - 1) /\
  includes payload newline = false.
Proof.
  intros Hstate Hsocket Hgroup payload.
  split; [| split; vm_compute; reflexivity].
  unfold sendThrottle, sendControl, sendMessage, bind, get_this, isConnected.
  rewrite Hstate, Hsocket, Hgroup. cbn [ConnectionState_eqb].
  unfold try_catch, bind, lift, tell, console_log, tell.
  replace (JSON_stringify
             [("BoatThrottle" ++ Number_toString default_engine,
               {| t := getTypeCode
                         (VData (JNum (clamp (literal "0.25") (Finite (-1)) (Finite 1))));
                  v := VData (JNum (clamp (literal "0.25") (Finite (-1)) (Finite 1))) |})])
    with (Return (quoted "{'BoatThrottle0':{'t':'F','v':0.25}}"))
    by (vm_compute; reflexivity).
  unfold log_more. cbn [this trace next_handle listeners].
  rewrite <- app_assoc. reflexivity.
Qed.

Lemma C3_witness :
  let o := {| opt_host := "localhost"; opt_port := Finite 2612;
              opt_autoReconnect := None; opt_reconnectDelay := None;
              opt_groupId := None |} in
  let w := snd (run JSON_parse [call_connect; socket_connect_event] (initial o)) in
  written (trace (snd (sendThrottle (literal "0.25") default_engine w))) =
    [quoted "1{'BoatThrottle0':{'t':'F','v':0.25}}" ++ null_byte].
Proof.
  intros o w.
  rewrite (proj1 (C3_sendThrottle_payload w 0%nat eq_refl eq_refl eq_refl)).
  vm_compute. reflexivity.
Defined.

Lemma is_integral_spec q :
  is_integral (Finite q) = true <-> exists z, (q == inject_Z z)%Q.
Proof.
  unfold is_integral. rewrite Qeq_bool_iff. split.
  - intros H. exists (Qfloor q). now symmetry.
  - intros [z Hz]. rewrite Hz at 1. rewrite Qfloor_Z. now symmetry.
Qed.

(** C5.  The tag that [getTypeCode] chooses for a value [x]: I for an
    integer-valued number, F for any other number, B for a boolean, S for
    a string, J for a value whose run-time type is object (objects, arrays
    and [null]), and S for a value of any other run-time type.  The
    function is total, so a tag is always chosen. *)
Theorem C5_getTypeCode_table (x : value) :
  (typeof x = "number" -> integer_valued x -> getTypeCode x = tI) /\
  (typeof x = "number" -> ~ integer_valued x -> getTypeCode x = tF) /\
  (typeof x = "boolean" -> getTypeCode x = tB) /\
  (typeof x = "string" -> getTypeCode x = tS) /\
  (typeof x = "object" -> getTypeCode x = tJ) /\
  (typeof x <> "number" -> typeof x <> "boolean" -> typeof x <> "string" ->
   typeof x <> "object" -> getTypeCode x = tS).
Proof.
  unfold getTypeCode.
  destruct x as [| [| b | n | s | elems | props] | src | d | z];
    cbn [typeof]; repeat split; intros;
    try discriminate; try reflexivity; try congruence.
  - cbn [String.eqb Ascii.eqb Bool.eqb]. cbn [Number_isInteger].
    destruct H0 as (q & z & [= ->] & Hz).
    replace (is_integral (Finite q)) with true; [reflexivity |].
    symmetry. apply is_integral_spec. now exists z.
  - cbn [String.eqb Ascii.eqb Bool.eqb]. cbn [Number_isInteger].
    destruct (is_integral n) eqn:E; [| reflexivity].
    destruct H0. destruct n as [| | | q]; try discriminate.
    apply is_integral_spec in E. destruct E as [z Hz].
    now exists q, z.
Qed.

Lemma C5_witness :
  getTypeCode (VData (JNum (literal "3"))) = tI /\
  getTypeCode (VData (JNum (literal "0.25"))) = tF /\
  getTypeCode (VData (JNum NaN)) = tF /\
  getTypeCode (VData (JBool true)) = tB /\
  getTypeCode (VData (JStr "270.NW.HDG")) = tS /\
  getTypeCode (VData (JObj [("Msg", JNull)])) = tJ /\
  getTypeCode (VData JNull) = tJ /\
  getTypeCode VUndefined = tS.
Proof.
  refine (conj _ (conj _ (conj _ (conj _ (conj _ (conj _ (conj _ _))))))).
  - apply (proj1 (C5_getTypeCode_table (VData (JNum (literal "3"))))); [reflexivity |].
    exists 3%Q, 3%Z. split; reflexivity.
  - apply (proj1 (proj2 (C5_getTypeCode_table (VData (JNum (literal "0.25"))))));
      [reflexivity |].
    intros (q & z & H & Hz).
    assert (E : literal "0.25" = Finite (1 # 4)) by (vm_compute; reflexivity).
    rewrite E in H. injection H as <-.
    unfold Qeq in Hz. simpl in Hz. lia.
  - apply (proj1 (proj2 (C5_getTypeCode_table (VData (JNum NaN))))); [reflexivity |].
    intros (q & z & H & _). discriminate H.
  - exact (proj1 (proj2 (proj2 (C5_getTypeCode_table (VData (JBool true))))) eq_refl).
  - exact (proj1 (proj2 (proj2 (proj2
             (C5_getTypeCode_table (VData (JStr "270.NW.HDG")))))) eq_refl).
  - exact (proj1 (proj2 (proj2 (proj2 (proj2
             (C5_getTypeCode_table (VData (JObj [("Msg", JNull)]))))))) eq_refl).
  - exact (proj1 (proj2 (proj2 (proj2 (proj2
             (C5_getTypeCode_table (VData JNull)))))) eq_refl).
  - apply (proj2 (proj2 (proj2 (proj2 (proj2 (C5_getTypeCode_table VUndefined))))));
      discriminate.
Defined.

Lemma lt_Finite p q : lt (Finite p) (Finite q) = true <-> (p < q)%Q.
Proof.
  unfold lt. rewrite negb_true_iff. split.
  - intros H. apply Qnot_le_lt. intros Hle. apply Qle_bool_iff in Hle. congruence.
  - intros H. destruct (Qle_bool q p) eqn:E; [| reflexivity].
    apply Qle_bool_iff in E. exfalso. now apply (Qlt_not_le p q).
Qed.

Lemma lt_Finite_false p q : lt (Finite p) (Finite q) = false <-> (q <= p)%Q.
Proof.
  unfold lt. rewrite negb_false_iff. apply Qle_bool_iff.
Qed.

(** [clamp] on a number that is not [NaN]. *)
Lemma clamp_spec x :
  x <> NaN -> clamped_to (Finite (-1)) (Finite 1) x (clamp x (Finite (-1)) (Finite 1)).
Proof.
  intros Hx. unfold clamp, Math_max, Math_min, clamped_to.
  destruct x as [| | | q]; [now destruct Hx | | |].
  - cbn. repeat split; intros; try reflexivity; try easy.
  - cbn. repeat split; intros; try reflexivity; try easy.
  - cbn [max_loop min_loop isNaN]. change (lt (Finite 1) PosInfinity) with true.
    cbv iota.
    destruct (lt (Finite q) (Finite 1)) eqn:E1.
    + apply lt_Finite in E1. cbn [isNaN].
      change (lt NegInfinity (Finite (-1))) with true. cbv iota.
      destruct (lt (Finite (-1)) (Finite q)) eqn:E2.
      * apply lt_Finite in E2. cbn [num_le num_lt].
        repeat split; intros; try reflexivity; lra.
      * apply lt_Finite_false in E2. cbn [num_le num_lt].
        repeat split; intros; try reflexivity; lra.
    + apply lt_Finite_false in E1. cbn [isNaN].
      change (lt NegInfinity (Finite (-1))) with true. cbv iota.
      change (lt (Finite (-1)) (Finite 1)) with true. cbv iota.
      cbn [num_le num_lt]. repeat split; intros; try reflexivity; lra.
Qed.

Lemma Qle_bool_inject a b : Qle_bool (inject_Z a) (inject_Z b) = (a <=? b)%Z.
Proof. unfold Qle_bool. simpl. now rewrite !Z.mul_1_r. Qed.

Lemma lt_inject a b : lt (Finite (inject_Z a)) (Finite (inject_Z b)) = (a <? b)%Z.
Proof. unfold lt. rewrite Qle_bool_inject. symmetry. apply Z.ltb_antisym. Qed.

(** [Math.round] followed by the clamp of [sendBowThruster], on a number
    that is not [NaN]. *)
Lemma round_clamp_spec x :
  x <> NaN ->
  rounded_to_unit x (Math_max [Finite (-1); Math_min [Finite 1; Math_round x]]).
Proof.
  intros Hx. unfold Math_max, Math_min, rounded_to_unit.
  destruct x as [| | | q]; [now destruct Hx | | |].
  - cbn. repeat split; intros; try reflexivity; try easy. now right; right.
  - cbn. repeat split; intros; try reflexivity; try easy. now left.
  - cbn [Math_round max_loop min_loop isNaN].
    change (lt (Finite 1) PosInfinity) with true.
    change (lt NegInfinity (Finite (-1))) with true. cbv iota.
    pose proof (Qfloor_le (q + (1 # 2))) as Hlo.
    pose proof (Qlt_floor (q + (1 # 2))) as Hhi.
    set (r := Qfloor (q + (1 # 2))) in *.
    change (Finite 1) with (Finite (inject_Z 1)).
    change (Finite (-1)) with (Finite (inject_Z (-1))).
    rewrite !lt_inject.
    destruct (Z.ltb_spec r 1) as [H1 | H1]; cbn [isNaN]; rewrite !lt_inject.
    + destruct (Z.ltb_spec (-1) r) as [H2 | H2].
      * assert (Hr : r = 0%Z) by lia. rewrite Hr in *.
        cbn [num_le num_lt]. change (inject_Z 0) with 0%Q in *.
        change (inject_Z (0 + 1)) with 1%Q in *.
        repeat split; intros; try reflexivity; try lra.
        now right; left.
      * assert (Hr : (inject_Z (r + 1) <= inject_Z 0)%Q) by (rewrite <- Zle_Qle; lia).
        change (inject_Z 0) with 0%Q in Hr.
        cbn [num_le num_lt]. repeat split; intros; try reflexivity; try lra.
        now left.
    + change (-1 <? 1)%Z with true. cbv iota.
      assert (Hr : (inject_Z 1 <= inject_Z r)%Q) by (rewrite <- Zle_Qle; lia).
      change (inject_Z 1) with 1%Q in Hr.
      cbn [num_le num_lt]. repeat split; intros; try reflexivity; try lra.
      now right; right.
Qed.

(** C6, as amended.  For every number [x] other than [NaN],
    [sendRudder(x)] encodes [x] clamped to the range from -1 to 1, and
    [sendBowThruster(x)] encodes [x] rounded to the nearest integer and
    clamped to -1, 0, 1. *)
Theorem C6_clamped_controls (x : number) :
  x <> NaN ->
  (exists c, sendRudder x = sendControl "BoatRuder" (VData (JNum c)) /\
             clamped_to (Finite (-1)) (Finite 1) x c) /\
  (exists c, sendBowThruster x = sendControl "BowThruster" (VData (JNum c)) /\
             rounded_to_unit x c).
Proof.
  intros Hx. split.
  - exists (clamp x (Finite (-1)) (Finite 1)). split; [reflexivity |].
    now apply clamp_spec.
  - exists (Math_max [Finite (-1); Math_min [Finite 1; Math_round x]]).
    split; [reflexivity |]. now apply round_clamp_spec.
Qed.

Lemma C6_witness :
  (exists c, sendRudder (literal "2.0") = sendControl "BoatRuder" (VData (JNum c)) /\
             c = Finite 1) /\
  (exists c, sendRudder (literal "-5.0") = sendControl "BoatRuder" (VData (JNum c)) /\
             c = Finite (-1)) /\
  (exists c, sendBowThruster (literal "0.6") = sendControl "BowThruster" (VData (JNum c)) /\
             c = Finite 1).
Proof.
  assert (H2 : literal "2.0" <> NaN) by (vm_compute; discriminate).
  assert (H5 : literal "-5.0" <> NaN) by (vm_compute; discriminate).
  assert (H6 : literal "0.6" <> NaN) by (vm_compute; discriminate).
  refine (conj _ (conj _ _)).
  - destruct (C6_clamped_controls (literal "2.0") H2) as [(c & Hc & Hspec) _].
    exists c. split; [exact Hc |].
    apply Hspec. vm_compute. discriminate.
  - destruct (C6_clamped_controls (literal "-5.0") H5) as [(c & Hc & Hspec) _].
    exists c. split; [exact Hc |].
    apply Hspec. vm_compute. discriminate.
  - destruct (C6_clamped_controls (literal "0.6") H6) as [_ (c & Hc & Hspec)].
    exists c. split; [exact Hc |].
    apply Hspec. vm_compute. discriminate.
Defined.

(** *** What [NaN] is encoded as *)

Lemma digit_char_is_digit d : (0 <= d < 10)%Z -> is_digit (digit_char d) = true.
Proof.
  intros H.
  assert (E : (d = 0 \/ d = 1 \/ d = 2 \/ d = 3 \/ d = 4 \/ d = 5 \/ d = 6 \/
               d = 7 \/ d = 8 \/ d = 9)%Z) by lia.
  repeat (destruct E as [-> | E]; [reflexivity |]). now subst.
Qed.

Lemma digits_loop_head fuel z acc : digit_first (digits_loop (S fuel) z acc).
Proof.
  revert z acc. induction fuel as [| fuel IH]; intros z acc.
  - cbn [digits_loop]. destruct (z / 10 =? 0)%Z;
      (do 2 eexists; split; [reflexivity |];
       apply digit_char_is_digit; apply Z.mod_pos_bound; lia).
  - change (digits_loop (S (S fuel)) z acc)
      with (if (z / 10 =? 0)%Z then String (digit_char (z mod 10)) acc
            else digits_loop (S fuel) (z / 10) (String (digit_char (z mod 10)) acc)).
    destruct (z / 10 =? 0)%Z; [| apply IH].
    do 2 eexists; split; [reflexivity |].
    apply digit_char_is_digit; apply Z.mod_pos_bound; lia.
Qed.

Lemma digits_head z : digit_first (digits z).
Proof. apply digits_loop_head. Qed.

Lemma render_head n k s : digit_first (render n k s).
Proof.
  unfold render. destruct (digits_head s) as (c & rest & -> & Hc).
  destruct ((-5 <=? n)%Z && (n <=? 21)%Z).
  - destruct (k <=? n)%Z; [do 2 eexists; split; [reflexivity | exact Hc] |].
    destruct (Z.ltb_spec 0 n) as [Hn | Hn].
    + destruct (Z.to_nat n) as [| n'] eqn:E; [lia |].
      do 2 eexists; split; [reflexivity | exact Hc].
    + do 2 eexists; split; reflexivity.
  - destruct (k =? 1)%Z; do 2 eexists; split; try reflexivity; exact Hc.
Qed.

(** The text of a finite number starts with a digit or with a minus
    sign; in particular it does not start with the letter n. *)
Lemma Number_toString_head q :
  exists c rest, Number_toString (Finite q) = String c rest /\ c <> "n"%char.
Proof.
  unfold Number_toString. destruct (Qeq_bool q 0).
  - do 2 eexists; split; [reflexivity | discriminate].
  - destruct (shortest (Qabs q)) as [[n k] s].
    destruct (render_head n k s) as (c & rest & -> & Hc).
    destruct (Qle_bool 0 q).
    + do 2 eexists; split; [reflexivity |]. intros ->. discriminate Hc.
    + do 2 eexists; split; [reflexivity | discriminate].
Qed.

(** C6 as the claim states it, for every number, fails at [NaN]:
    [Math.min] and [Math.max] answer [NaN] as soon as an argument is [NaN],
    so [sendRudder(NaN)] encodes [NaN] (written [null] on the wire), which
    is no value of the range from -1 to 1. *)
Lemma C6_counterexample :
  ~ (forall x : number,
        exists c, sendRudder x = sendControl "BoatRuder" (VData (JNum c)) /\
                  num_le (Finite (-1)) c /\ num_le c (Finite 1)).
Proof.
  intros H. destruct (H NaN) as (c & Hsend & Hlo & Hhi).
  destruct c as [| | | q]; try contradiction.
  set (w := snd (run JSON_parse [call_connect; socket_connect_event] blank)).
  assert (E : written (trace (snd (sendRudder NaN w))) =
              written (trace (snd (sendControl "BoatRuder" (VData (JNum (Finite q))) w))))
    by (now rewrite Hsend).
  unfold sendControl, sendMessage, bind, get_this, try_catch, lift in E.
  destruct (Number_toString_head q) as (c & rest & Htext & Hc).
  unfold JSON_stringify, stringify_entries, stringify_envelope, stringify_property in E.
  cbn [DYBClient.v DYBClient.t stringify_json] in E.
  rewrite Htext in E.
  destruct (getTypeCode (VData (JNum (Finite q)))); vm_compute in E;
    try discriminate E.
  injection E as E. now destruct Hc.
Qed.

(** ** Further properties: sending *)

(** What [sendMessage] does, by the state of the client and by what
    [JSON.stringify] answers. *)
Lemma sendMessage_connected message w h :
  state (this w) = Connected ->
  socket (this w) = Some h ->
  sendMessage message w =
  match JSON_stringify message with
  | Return json =>
      (Return tt,
       log_more w
         [socket_write h (Number_toString (groupId (options (this w))) ++ json
                          ++ null_byte);
          console Log [LText ("-> SENT: " ++ json)]])
  | Throw e =>
      (Return tt, log_more w [console Err [LText "Error sending message:"; LError e]])
  end.
Proof.
  intros Hstate Hsocket.
  unfold sendMessage, bind, get_this, isConnected. rewrite Hstate, Hsocket.
  cbn [ConnectionState_eqb]. unfold try_catch, bind, lift.
  destruct (JSON_stringify message) as [json | e].
  - unfold tell, console_log, tell, log_more. cbn [this trace next_handle listeners].
    rewrite <- app_assoc. reflexivity.
  - reflexivity.
Qed.

Lemma sendMessage_not_connected message w :
  state (this w) <> Connected \/ socket (this w) = None ->
  sendMessage message w =
  (Return tt, log_more w [console Warn [LText "Cannot send message: not connected"]]).
Proof.
  intros H. unfold sendMessage, bind, get_this, isConnected.
  destruct H as [H | H].
  - destruct (state (this w)); try reflexivity. now destruct H.
  - rewrite H. destruct (ConnectionState_eqb (state (this w)) Connected); reflexivity.
Qed.

(** X1.  A control sent while the client is not connected, or has no
    socket, is dropped: the call returns, the host observes the warning
    only, nothing is written and no field of the client changes. *)
Theorem X1_send_requires_connection (key : string) (value : value) (w : world) :
  state (this w) <> Connected \/ socket (this w) = None ->
  sendControl key value w =
  (Return tt, log_more w [console Warn [LText "Cannot send message: not connected"]]).
Proof.
  intros H. unfold sendControl. now apply sendMessage_not_connected.
Qed.

Lemma X1_witness :
  let w := snd (connect blank) in
  sendControl "BoatRuder" (VData (JNum (literal "0.5"))) w =
  (Return tt, log_more w [console Warn [LText "Cannot send message: not connected"]]).
Proof.
  intros w. apply X1_send_requires_connection.
  left. vm_compute. discriminate.
Defined.

(** X2.  [sendControl] never throws and never changes a field of the
    client, whatever the key and whatever value of the embedding it is
    given (which includes every number, boolean and string).  What the
    host observes is exactly one of three things: the warning that the
    client is not connected; on a connected client, one write to the
    socket of the client, of the group id, the text of [JSON.stringify]
    and the terminator, followed by the log of that text; or, on a
    connected client, the log of the error that [JSON.stringify] threw,
    and no write.  No event is emitted.  A BigInt, which [JSON.stringify]
    refuses, is the third case: its [TypeError] is logged and nothing is
    written. *)
Theorem X2_send_never_throws (key : string) (value : value) (w : world) :
  let message := [(key, {| t := getTypeCode value; v := value |})] in
  exists effs,
    sendControl key value w = (Return tt, log_more w effs) /\
    (effs = [console Warn [LText "Cannot send message: not connected"]] /\
     (state (this w) <> Connected \/ socket (this w) = None)
     \/
     (exists h json,
         state (this w) = Connected /\ socket (this w) = Some h /\
         JSON_stringify message = Return json /\
         effs = [socket_write h (Number_toString (groupId (options (this w))) ++ json
                                 ++ null_byte);
                 console Log [LText ("-> SENT: " ++ json)]])
     \/
     (exists h e,
         state (this w) = Connected /\ socket (this w) = Some h /\
         JSON_stringify message = Throw e /\
         effs = [console Err [LText "Error sending message:"; LError e]])) /\
    (List.length (written effs) <= 1)%nat /\
    events_of effs = [] /\
    (forall z h,
        value = VBigInt z -> state (this w) = Connected -> socket (this w) = Some h ->
        effs = [console Err [LText "Error sending message:";
                             LError (TypeError "Do not know how to serialize a BigInt")]]).
Proof.
  intros message. subst message. unfold sendControl.
  assert (Hoff : state (this w) <> Connected \/ socket (this w) = None ->
                 exists effs,
                   sendMessage [(key, {| t := getTypeCode value; v := value |})] w =
                     (Return tt, log_more w effs) /\
                   effs = [console Warn [LText "Cannot send message: not connected"]]).
  { intros H. eexists. split; [now apply sendMessage_not_connected | reflexivity]. }
  destruct (state (this w)) eqn:Hstate;
    try (destruct Hoff as (effs & Hrun & ->); [left; discriminate |];
         exists [console Warn [LText "Cannot send message: not connected"]];
         split; [exact Hrun |];
         split; [left; split; [reflexivity | left; discriminate] |];
         split; [simpl; lia |]; split; [reflexivity |];
         intros z h _ Hc; discriminate Hc).
  destruct (socket (this w)) as [h |] eqn:Hsocket.
  - clear Hoff. rewrite (sendMessage_connected _ w h Hstate Hsocket).
    destruct (JSON_stringify [(key, {| t := getTypeCode value; v := value |})])
      as [json | e] eqn:E.
    + eexists. split; [reflexivity |].
      split; [right; left; exists h, json; now repeat split |].
      split; [simpl; lia |]. split; [reflexivity |].
      intros z h' ->. discriminate E.
    + eexists. split; [reflexivity |].
      split; [right; right; exists h, e; now repeat split |].
      split; [simpl; lia |]. split; [reflexivity |].
      intros z h' -> _ _. cbn in E. now injection E as <-.
  - destruct Hoff as (effs & Hrun & ->); [now right |].
    exists [console Warn [LText "Cannot send message: not connected"]].
    split; [exact Hrun |].
    split; [left; split; [reflexivity | now right] |].
    split; [simpl; lia |]. split; [reflexivity |].
    intros z h _ _ Hc. discriminate Hc.
Qed.

(** X3.  A value that [JSON.stringify] leaves out of an object
    ([undefined], a function, a symbol) is sent all the same: its type
    code is S and the envelope is written without its [v]. *)
Theorem X3_left_out_value_is_sent_without_v
    (key : string) (value : value) (w : world) (h : nat) :
  state (this w) = Connected ->
  socket (this w) = Some h ->
  typeof value = "undefined" \/ typeof value = "function" \/ typeof value = "symbol" ->
  let json := "{" ++ (quote key ++ ":" ++ "{" ++ quote "t" ++ ":" ++ quote "S" ++ "}")
              ++ "}" in
  sendControl key value w =
  (Return tt,
   log_more w
     [socket_write h (Number_toString (groupId (options (this w))) ++ json ++ null_byte);
      console Log [LText ("-> SENT: " ++ json)]]).
Proof.
  intros Hstate Hsocket Htype json.
  unfold sendControl. rewrite (sendMessage_connected _ w h Hstate Hsocket).
  destruct value as [| [| b | n | s | elems | props] | src | d | z];
    cbn [typeof] in Htype;
    try (exfalso; destruct Htype as [H | [H | H]]; discriminate H);
    reflexivity.
Qed.

Lemma X3_witness :
  let w := snd (run JSON_parse [call_connect; socket_connect_event] blank) in
  written (trace (snd (sendControl "AP_set" VUndefined w))) =
  [quoted "1{'AP_set':{'t':'S'}}" ++ null_byte].
Proof.
  intros w.
  rewrite (X3_left_out_value_is_sent_without_v "AP_set" VUndefined w 0%nat
             eq_refl eq_refl (or_introl eq_refl)).
  vm_compute. reflexivity.
Defined.

(** X4.  The two boolean controls are sent with the type code B and the
    literal [true] or [false]; the bow thruster, for a number that is not
    [NaN], is always sent with the type code I. *)
Theorem X4_boolean_and_thruster_tags (w : world) (h : nat) (b : bool) (x : number) :
  state (this w) = Connected ->
  socket (this w) = Some h ->
  let json key := "{" ++ (quote key ++ ":" ++ "{" ++ quote "t" ++ ":" ++ quote "B" ++ ","
                          ++ quote "v" ++ ":" ++ (if b then "true" else "false") ++ "}")
                  ++ "}" in
  let sent key :=
    (Return tt,
     log_more w
       [socket_write h (Number_toString (groupId (options (this w))) ++ json key
                        ++ null_byte);
        console Log [LText ("-> SENT: " ++ json key)]]) in
  sendEngineState b w = sent "BoatEngineOn" /\
  sendAutopilot b w = sent "AP_active" /\
  (x <> NaN ->
   exists c, sendBowThruster x =
             sendMessage [("BowThruster", {| t := tI; v := VData (JNum c) |})]).
Proof.
  intros Hstate Hsocket json sent.
  unfold sendEngineState, sendAutopilot, sendBowThruster, sendControl.
  rewrite !(sendMessage_connected _ w h Hstate Hsocket).
  split; [now destruct b |]. split; [now destruct b |].
  intros Hx.
  exists (Math_max [Finite (-1); Math_min [Finite 1; Math_round x]]).
  assert (Htag : getTypeCode
                   (VData (JNum (Math_max [Finite (-1); Math_min [Finite 1; Math_round x]])))
                 = tI).
  { destruct (round_clamp_spec x Hx) as [[E | [E | E]] _]; rewrite E; reflexivity. }
  now rewrite Htag.
Qed.

Lemma X4_witness :
  let w := snd (run JSON_parse [call_connect; socket_connect_event] blank) in
  written (trace (snd (sendEngineState true w))) =
    [quoted "1{'BoatEngineOn':{'t':'B','v':true}}" ++ null_byte] /\
  exists c, sendBowThruster (literal "-0.4") =
            sendMessage [("BowThruster", {| t := tI; v := VData (JNum c) |})].
Proof.
  intros w.
  destruct (X4_boolean_and_thruster_tags w 0%nat true (literal "-0.4") eq_refl eq_refl)
    as (H1 & _ & H3).
  split.
  - rewrite H1. vm_compute. reflexivity.
  - apply H3. vm_compute. discriminate.
Defined.

(** ** Further properties: the life of a connection *)

Lemma timers_set_app e1 e2 :
  timers_set (e1 ++ e2) = (timers_set e1 ++ timers_set e2)%list.
Proof.
  induction e1 as [| e e1 IH]; [reflexivity |].
  destruct e; simpl; now rewrite IH.
Qed.

Lemma written_app e1 e2 : written (e1 ++ e2) = (written e1 ++ written e2)%list.
Proof.
  induction e1 as [| e e1 IH]; [reflexivity |].
  destruct e; simpl; now rewrite IH.
Qed.

Lemma disconnect_spec w :
  disconnect w =
  (Return tt,
   {| this := {| socket := None; buffer := buffer (this w); state := Disconnected;
                 reconnectTimer := None; options := options (this w) |};
      trace := trace w ++ cleanup_effects (reconnectTimer (this w)) (socket (this w));
      next_handle := next_handle w;
      listeners := listeners w |}).
Proof.
  destruct w as [[sock buf st timer opts] tr nh ls].
  unfold disconnect, cleanup_effects, bind, get_this, set_reconnectTimer, set_socket,
    set_state, bind, get_this, set_this, tell, ret.
  cbn [this socket buffer state reconnectTimer options trace next_handle listeners].
  destruct timer, sock;
    cbn [this socket buffer state reconnectTimer options trace next_handle listeners app];
    rewrite <- ?app_assoc, ?app_nil_r; reflexivity.
Qed.

(** X5.  [disconnect], from any state: the call returns; the state is
    [Disconnected]; the client holds no socket and no timer; the pending
    timer, if any, is cleared and the socket, if any, is destroyed, and the
    host observes nothing else; the buffer and the options are kept.  A
    second call right after is observed by nobody, and the close event of
    the destroyed socket, when it arrives, schedules no reconnect. *)
Theorem X5_disconnect (w : world) :
  let w1 := snd (disconnect w) in
  fst (disconnect w) = Return tt /\
  state (this w1) = Disconnected /\
  socket (this w1) = None /\
  reconnectTimer (this w1) = None /\
  buffer (this w1) = buffer (this w) /\
  options (this w1) = options (this w) /\
  trace w1 = (trace w ++ cleanup_effects (reconnectTimer (this w)) (socket (this w)))%list /\
  disconnect w1 = (Return tt, w1) /\
  timers_set (trace (snd (on_socket_close w1))) = timers_set (trace w1) /\
  reconnectTimer (this (snd (on_socket_close w1))) = None.
Proof.
  intros w1. subst w1. rewrite disconnect_spec. cbn [fst snd].
  repeat (split; [reflexivity |]).
  unfold on_socket_close, bind, get_this, set_state, bind, get_this, set_this,
    console_log, emit, tell, ret.
  cbn [this state ConnectionState_eqb andb options trace fst snd reconnectTimer].
  rewrite andb_false_r. cbn [snd trace this reconnectTimer].
  split; [| reflexivity].
  rewrite !timers_set_app. simpl. now rewrite !app_nil_r.
Qed.

(** The close of a connected session with auto-reconnect and no attempt
    pending, in full. *)
Lemma on_socket_close_schedules w :
  autoReconnect (options (this w)) = true ->
  state (this w) = Connected ->
  reconnectTimer (this w) = None ->
  on_socket_close w =
  (Return tt,
   {| this := {| socket := socket (this w); buffer := buffer (this w);
                 state := Disconnected; reconnectTimer := Some (next_handle w);
                 options := options (this w) |};
      trace := trace w ++
        [console Log [LText "Disconnected from game server"];
         emitted disconnected;
         console Log [LText ("Reconnecting in " ++
                             Number_toString
                               (div_finite (reconnectDelay (options (this w))) 1000)
                             ++ " seconds...")];
         setTimeout (next_handle w) (reconnectDelay (options (this w)))];
      next_handle := S (next_handle w);
      listeners := listeners w |}).
Proof.
  destruct w as [[sock buf st timer opts] tr nh ls].
  cbn [this options state reconnectTimer]. intros Hauto -> ->.
  unfold on_socket_close, scheduleReconnect, bind, get_this, set_state,
    set_reconnectTimer, bind, get_this, set_this, console_log, emit, tell, fresh, ret.
  cbn [this state options reconnectTimer trace next_handle listeners socket buffer
       ConnectionState_eqb].
  rewrite Hauto. cbn [andb].
  cbn [this state options reconnectTimer trace next_handle listeners socket buffer].
  rewrite <- !app_assoc. reflexivity.
Qed.

(** The timer callback is [connect] on the client without its timer. *)
Lemma on_reconnect_timer_spec w :
  on_reconnect_timer w =
  connect {| this := {| socket := socket (this w); buffer := buffer (this w);
                        state := state (this w); reconnectTimer := None;
                        options := options (this w) |};
             trace := trace w; next_handle := next_handle w;
             listeners := listeners w |}.
Proof. reflexivity. Qed.

(** X6.  The reconnect cycle.  After the close of a connected session
    with auto-reconnect, the timer, when it fires, forgets its handle and
    connects again: the state is [Connecting], no timer is pending, and
    exactly one new socket is created and asked to connect to the
    configured port and host. *)
Theorem X6_timer_reconnects (w : world) :
  autoReconnect (options (this w)) = true ->
  state (this w) = Connected ->
  reconnectTimer (this w) = None ->
  let w1 := snd (on_socket_close w) in
  let w2 := snd (on_reconnect_timer w1) in
  fst (on_reconnect_timer w1) = Return tt /\
  state (this w2) = Connecting /\
  reconnectTimer (this w2) = None /\
  socket (this w2) = Some (S (next_handle w)) /\
  trace w2 =
    (trace w1 ++
     [console Log [LText ("Connecting to " ++ host (options (this w)) ++ ":" ++
                          Number_toString (port (options (this w))) ++ "...")];
      socket_new (S (next_handle w));
      socket_connect (S (next_handle w)) (port (options (this w)))
                     (host (options (this w)))])%list.
Proof.
  intros Hauto Hstate Htimer w1 w2. subst w2 w1.
  rewrite (on_socket_close_schedules w Hauto Hstate Htimer). cbn [snd].
  rewrite on_reconnect_timer_spec.
  rewrite connect_opens by (left; reflexivity).
  cbn [fst snd this state reconnectTimer socket trace next_handle options].
  repeat split.
Qed.

Lemma X6_witness :
  let w0 := snd (run JSON_parse [call_connect; socket_connect_event] blank) in
  let w2 := snd (on_reconnect_timer (snd (on_socket_close w0))) in
  state (this w2) = Connecting /\ reconnectTimer (this w2) = None /\
  socket (this w2) = Some 2%nat.
Proof.
  intros w0 w2.
  destruct (X6_timer_reconnects w0 eq_refl eq_refl eq_refl) as (_ & H1 & H2 & H3 & _).
  split; [exact H1 |]. split; [exact H2 | exact H3].
Defined.

(** X7.  A reconnect that races its own timer opens one transport, not
    two.  After the close of a connected session with auto-reconnect,
    whether the user calls [connect] before the timer fires or after, the
    two together open exactly one transport: the later of the two meets
    the guard of [connect].  Either way the state is [Connecting] and no
    timer is pending. *)
Theorem X7_timer_and_manual_connect_open_one_transport (w : world) :
  autoReconnect (options (this w)) = true ->
  state (this w) = Connected ->
  reconnectTimer (this w) = None ->
  let after m := snd ((on_socket_close ;; m) w) in
  let good w' :=
    state (this w') = Connecting /\ reconnectTimer (this w') = None /\
    transports_opened (trace w') = S (transports_opened (trace w)) in
  good (after (connect ;; on_reconnect_timer)) /\
  good (after (on_reconnect_timer ;; connect)).
Proof.
  intros Hauto Hstate Htimer after good. subst after good. cbv beta.
  unfold bind. rewrite (on_socket_close_schedules w Hauto Hstate Htimer).
  rewrite connect_opens by (left; reflexivity).
  rewrite !on_reconnect_timer_spec.
  cbn [this socket buffer state reconnectTimer options trace next_handle listeners].
  rewrite connect_guarded by (left; reflexivity).
  rewrite connect_opens by (left; reflexivity).
  rewrite connect_guarded by (left; reflexivity).
  cbn [snd log_more this state reconnectTimer trace].
  rewrite <- !app_assoc, !transports_opened_app. simpl.
  repeat split; lia.
Qed.

Lemma X7_witness :
  let w0 := snd (run JSON_parse [call_connect; socket_connect_event] blank) in
  let w := snd ((on_socket_close ;; connect ;; on_reconnect_timer) w0) in
  state (this w) = Connecting /\ reconnectTimer (this w) = None /\
  transports_opened (trace w) = S (transports_opened (trace w0)).
Proof.
  intros w0 w.
  exact (proj1 (X7_timer_and_manual_connect_open_one_transport w0 eq_refl eq_refl eq_refl)).
Defined.

(** ** Further properties: framing *)

Lemma append_assoc (a b c : string) : (a ++ b) ++ c = a ++ (b ++ c).
Proof. induction a as [| x a IH]; simpl; [reflexivity | now rewrite IH]. Qed.

Lemma append_nil_r (a : string) : a ++ "" = a.
Proof. induction a as [| x a IH]; simpl; [reflexivity | now rewrite IH]. Qed.

(** A text is determined by its lines and its remainder. *)
Lemma split_lines_unsplit lines remainder :
  Forall (fun l => find l newline = None) lines ->
  find remainder newline = None ->
  split_lines (unsplit lines remainder) = (lines, remainder).
Proof.
  intros Hlines Hrem. induction Hlines as [| l ls Hl _ IH]; cbn [unsplit].
  - now apply split_lines_none.
  - rewrite (split_lines_line l _ Hl), IH. reflexivity.
Qed.

(** [handleData] by the lines of the buffer followed by the chunk. *)
Lemma handleData_frames
    (P : string -> outcome json) (w : world) (data : string)
    (lines : list string) (remainder : string) :
  buffer (this w) ++ data = unsplit lines remainder ->
  Forall (fun l => find l newline = None) lines ->
  find remainder newline = None ->
  handleData P data w = processAll P (frames lines) (with_buffer remainder w).
Proof.
  intros Hsplit Hlines Hrem.
  rewrite handleData_spec, processAll_effects, Hsplit.
  rewrite (split_lines_unsplit lines remainder Hlines Hrem). reflexivity.
Qed.

(** X8.  Framing in general.  Let the buffer followed by the chunk be
    some lines, each without a newline and each followed by a newline, and
    then a remainder without a newline.  Then [handleData] hands to
    [processMessage] exactly the lines that are not empty, in order and
    once each, and leaves the remainder in the buffer. *)
Theorem X8_handleData_frames
    (P : string -> outcome json) (w : world) (data : string)
    (lines : list string) (remainder : string) :
  buffer (this w) ++ data = unsplit lines remainder ->
  Forall (fun l => find l newline = None) lines ->
  find remainder newline = None ->
  handleData P data w = processAll P (frames lines) (with_buffer remainder w).
Proof. exact (handleData_frames P w data lines remainder). Qed.

Lemma X8_witness :
  let w := with_buffer "1{" blank in
  handleData JSON_parse ("}" ++ newline ++ newline ++ "x" ++ newline ++ "2[") w =
  processAll JSON_parse ["1{}"; "x"] (with_buffer "2[" w).
Proof.
  intros w.
  apply (X8_handleData_frames JSON_parse w _ ["1{}"; ""; "x"] "2[").
  - reflexivity.
  - repeat constructor.
  - reflexivity.
Defined.

(** The lines of two texts in a row: those of the first, then those of
    what the first leaves followed by the second. *)
Lemma split_lines_app s u :
  split_lines (s ++ u) =
  ((fst (split_lines s) ++ fst (split_lines (snd (split_lines s) ++ u)))%list,
   snd (split_lines (snd (split_lines s) ++ u))).
Proof.
  induction s as [| c r IH].
  - simpl. now destruct (split_lines u).
  - cbn [append split_lines]. rewrite IH.
    destruct (split_lines r) as [lines rest] eqn:E. cbn [fst snd].
    destruct (nat_of_ascii c =? 10)%nat eqn:Ec.
    + reflexivity.
    + destruct lines as [| l ls]; cbn [fst snd app].
      * cbn [append split_lines]. rewrite Ec.
        destruct (split_lines (rest ++ u)) as [[| l2 ls2] rest2]; reflexivity.
      * reflexivity.
Qed.

Lemma frames_effects_app P l1 l2 :
  frames_effects P (l1 ++ l2) = (frames_effects P l1 ++ frames_effects P l2)%list.
Proof.
  unfold frames_effects, frames. now rewrite filter_app, map_app, concat_app.
Qed.

(** X9.  The frames do not depend on how the stream is cut into chunks:
    feeding two chunks one after the other is feeding them at once. *)
Theorem X9_chunking_is_immaterial (P : string -> outcome json) (a b : string) (w : world) :
  (handleData P a ;; handleData P b) w = handleData P (a ++ b) w.
Proof.
  unfold bind. rewrite !handleData_spec.
  cbn [this log_more with_buffer buffer].
  rewrite <- append_assoc, (split_lines_app (buffer (this w) ++ a) b).
  cbn [fst snd]. rewrite frames_effects_app.
  unfold log_more, with_buffer. simpl. now rewrite app_assoc.
Qed.

(** [disconnect], [connect] and the connect event in a row. *)
Lemma reconnect_by_hand w :
  (disconnect ;; connect ;; on_socket_connect) w =
  (Return tt,
   {| this := {| socket := Some (next_handle w); buffer := buffer (this w);
                 state := Connected; reconnectTimer := None;
                 options := options (this w) |};
      trace := ((trace w ++ cleanup_effects (reconnectTimer (this w)) (socket (this w)))
                ++ [console Log [LText ("Connecting to " ++ host (options (this w)) ++ ":"
                                        ++ Number_toString (port (options (this w)))
                                        ++ "...")];
                    socket_new (next_handle w);
                    socket_connect (next_handle w) (port (options (this w)))
                                   (host (options (this w)))])
               ++ [console Log [LText "Connected to game server"]; emitted connected];
      next_handle := S (next_handle w);
      listeners := listeners w |}).
Proof.
  unfold bind. rewrite disconnect_spec. cbv beta iota.
  rewrite connect_opens by (left; reflexivity). cbv beta iota.
  unfold on_socket_connect, bind, set_state, bind, get_this, set_this, console_log,
    emit, tell.
  cbn [fst snd this buffer state socket reconnectTimer options trace next_handle
       listeners].
  rewrite <- (app_assoc _ [console Log [LText "Connected to game server"]]
                [emitted connected]).
  reflexivity.
Qed.

(** X10.  The buffer outlives the connection.  On a client whose port
    [socket.connect] accepts, [disconnect], [connect] and the connect
    event return and leave the buffer as it is, so the beginning of a
    frame that an earlier connection left behind is put in front of the
    first data of the next connection: the first frame of the new
    connection is processed with that beginning before it. *)
Theorem X10_buffer_outlives_the_connection
    (P : string -> outcome json) (w : world) (line : string) :
  valid_port (port (options (this w))) = true ->
  find (buffer (this w)) newline = None ->
  find line newline = None ->
  let w' := snd ((disconnect ;; connect ;; on_socket_connect) w) in
  fst ((disconnect ;; connect ;; on_socket_connect) w) = Return tt /\
  state (this w') = Connected /\
  buffer (this w') = buffer (this w) /\
  handleData P (line ++ newline) w' =
    processAll P (frames [buffer (this w) ++ line]) (with_buffer "" w').
Proof.
  intros _ Hbuf Hline w'. subst w'. rewrite reconnect_by_hand. cbn [fst snd].
  repeat (split; [reflexivity |]).
  apply handleData_frames.
  - cbn [this buffer unsplit]. now rewrite append_assoc.
  - constructor; [| constructor].
    clear - Hbuf Hline. induction (buffer (this w)) as [| c r IH].
    + exact Hline.
    + rewrite find_newline_cons in Hbuf. cbn [append]. rewrite find_newline_cons.
      destruct (nat_of_ascii c =? 10)%nat; [discriminate |].
      destruct (find r newline) eqn:E; [discriminate |].
      now rewrite IH.
  - reflexivity.
Qed.

Lemma X10_witness :
  let w := snd (run JSON_parse
                  [call_connect; socket_connect_event;
                   socket_data_event (quoted "1{'A':")] blank) in
  let w' := snd ((disconnect ;; connect ;; on_socket_connect) w) in
  handleData JSON_parse (quoted "2{'B':2}" ++ newline) w' =
  processAll JSON_parse (frames [buffer (this w) ++ quoted "2{'B':2}"])
             (with_buffer "" w').
Proof.
  intros w w'.
  apply (X10_buffer_outlives_the_connection JSON_parse w (quoted "2{'B':2}"));
    vm_compute; reflexivity.
Defined.

Lemma quiet_ret ok {A} (a : A) : quiet ok (ret a).
Proof. intros w. exists []. split; [| reflexivity]. simpl. now rewrite log_more_nil. Qed.

Lemma quiet_lift ok {A} (o : outcome A) : quiet ok (lift o).
Proof. intros w. exists []. split; [| reflexivity]. simpl. now rewrite log_more_nil. Qed.

Lemma quiet_tell (ok : effect -> bool) e : ok e = true -> quiet ok (tell e).
Proof. intros H w. exists [e]. split; [reflexivity |]. simpl. now rewrite H. Qed.

Lemma quiet_bind ok {A B} (m : M A) (k : A -> M B) :
  quiet ok m -> (forall a, quiet ok (k a)) -> quiet ok (bind m k).
Proof.
  intros Hm Hk w. unfold bind. destruct (Hm w) as (e1 & H1 & Hok1).
  destruct (m w) as [[a | x] w1]; simpl in H1; subst w1.
  - destruct (Hk a (log_more w e1)) as (e2 & H2 & Hok2).
    exists (e1 ++ e2)%list. rewrite H2, log_more_app. split; [reflexivity |].
    now rewrite forallb_app, Hok1, Hok2.
  - now exists e1.
Qed.

Lemma quiet_if ok {A} (c : bool) (m1 m2 : M A) :
  quiet ok m1 -> quiet ok m2 -> quiet ok (if c then m1 else m2).
Proof. now destruct c. Qed.

Lemma quiet_try_catch ok body handler :
  quiet ok body -> (forall e, quiet ok (handler e)) -> quiet ok (try_catch body handler).
Proof.
  intros Hb Hh w. unfold try_catch. destruct (Hb w) as (e1 & H1 & Hok1).
  destruct (body w) as [[[] | x] w1]; simpl in H1; subst w1.
  - now exists e1.
  - destruct (Hh x (log_more w e1)) as (e2 & H2 & Hok2).
    exists (e1 ++ e2)%list. rewrite H2, log_more_app. split; [reflexivity |].
    now rewrite forallb_app, Hok1, Hok2.
Qed.

Ltac quiet_steps :=
  repeat first
    [ apply quiet_ret | apply quiet_lift | apply quiet_tell; reflexivity
    | apply quiet_if
    | apply quiet_bind; [ | intros ? ]
    | apply quiet_try_catch; [ | intros ? ] ].

Lemma quiet_processMessage P line : quiet inbound_kind (processMessage P line).
Proof.
  unfold processMessage, parseSpecialMessages, parsePlayerMessenger, parseAPDisplay,
    parseAPActive, console_log, console_error, emit.
  quiet_steps.
Qed.

Lemma frame_effects_kind P line : forallb inbound_kind (frame_effects P line) = true.
Proof.
  destruct (quiet_processMessage P line blank) as (effs & H & Hok).
  unfold frame_effects. rewrite H. exact Hok.
Qed.

(** X11.  Inbound data never makes the client write, connect, destroy a
    socket or arm a timer, and never makes it throw: whatever the chunk and
    whatever [JSON.parse] answers, [handleData] returns, the host observes
    console output and emitted events only, and of the fields of the client
    only the buffer may change. *)
Theorem X11_inbound_only_logs_and_emits
    (P : string -> outcome json) (data : string) (w : world) :
  exists effs remainder,
    handleData P data w = (Return tt, log_more (with_buffer remainder w) effs) /\
    forallb inbound_kind effs = true /\
    written effs = [] /\
    timers_set effs = [] /\
    transports_opened effs = 0%nat.
Proof.
  exists (frames_effects P (fst (split_lines (buffer (this w) ++ data)))),
         (snd (split_lines (buffer (this w) ++ data))).
  split; [apply handleData_spec |].
  assert (Hkind : forallb inbound_kind
                    (frames_effects P (fst (split_lines (buffer (this w) ++ data)))) = true).
  { unfold frames_effects.
    induction (frames (fst (split_lines (buffer (this w) ++ data)))) as [| f fs IH];
      [reflexivity |].
    cbn [map List.concat]. now rewrite forallb_app, frame_effects_kind, IH. }
  split; [exact Hkind |].
  induction (frames_effects P (fst (split_lines (buffer (this w) ++ data))))
    as [| e effs IH]; [repeat split |].
  cbn [forallb] in Hkind. apply andb_true_iff in Hkind. destruct Hkind as [He Hrest].
  destruct (IH Hrest) as (H1 & H2 & H3).
  destruct e; try discriminate He; simpl; auto.
Qed.

(** ** Further properties: dispatch *)

(** The block of [AP_display] emits its event only for an envelope whose
    tag is the string S. *)
Lemma parseAPDisplay_gate m :
  events_of (block_effects (parseAPDisplay m)) <> [] ->
  exists apd, Get m "AP_display" = Return apd /\
              Get apd "t" = Return (VData (JStr "S")).
Proof.
  unfold block_effects, parseAPDisplay.
  unfold bind at 1, lift at 1.
  destruct (Get m "AP_display") as [apd | e]; [| now intros []].
  destruct (truthy apd); [| now intros []].
  unfold bind at 1, lift at 1.
  destruct (Get apd "t") as [tag | e] eqn:Et; [| now intros []].
  destruct (strict_eq_string tag "S") eqn:E; [| now intros []].
  intros _. exists apd. split; [reflexivity |].
  now rewrite Et, (strict_eq_string_true _ _ E).
Qed.

(** The events of [parseSpecialMessages], block by block. *)
Lemma parseSpecialMessages_blocks m :
  events_of (block_effects (parseSpecialMessages m)) =
  (events_of (block_effects (parsePlayerMessenger m)) ++
   match block_outcome (parsePlayerMessenger m) with
   | Return _ => events_of (block_effects (parseAPDisplay m))
   | Throw _ => []
   end)%list.
Proof.
  unfold parseSpecialMessages.
  rewrite block_effects_bind;
    [ | apply logger_parsePlayerMessenger
      | intros _; apply logger_bind;
        [apply logger_parseAPDisplay | intros _; apply logger_parseAPActive] ].
  rewrite events_of_app. f_equal.
  destruct (block_outcome (parsePlayerMessenger m)) as [[] | e]; [| reflexivity].
  rewrite block_effects_bind;
    [ | apply logger_parseAPDisplay | intros _; apply logger_parseAPActive ].
  rewrite events_of_app.
  destruct (block_outcome (parseAPDisplay m));
    [rewrite parseAPActive_events |]; now rewrite app_nil_r.
Qed.

(** X12.  The compass display.  A decoded message that is an object
    without the key [PlayerMessenger] and whose [AP_display] envelope has
    the tag S and a string value yields the generic message event and then
    one compass-display event that carries the string as it is.  For any
    decoded message, a compass-display event is emitted only if the
    [AP_display] envelope has the tag S. *)
Theorem X12_compass_display
    (P : string -> outcome json) (line : string) (m : json) :
  (2 <= String.length line)%nat ->
  P (substring1 line 1) = Return m ->
  (forall fields envelope display,
      m = JObj fields ->
      lookup "PlayerMessenger" fields = None ->
      lookup "AP_display" fields = Some (JObj envelope) ->
      lookup "t" envelope = Some (JStr "S") ->
      lookup "v" envelope = Some (JStr display) ->
      events_of (frame_effects P line) =
        [message (VData m); compassDisplay (VData (JStr display))]) /\
  ((exists e, In e (events_of (frame_effects P line)) /\ is_compassDisplay e = true) ->
   exists apd, Get (VData m) "AP_display" = Return apd /\
               Get apd "t" = Return (VData (JStr "S"))).
Proof.
  intros Hlen HP. rewrite (frame_events_decoded P line m Hlen HP).
  rewrite parseSpecialMessages_blocks. split.
  - intros fields envelope display -> Hpm Hapd Htag Hv.
    unfold block_effects at 1, block_outcome, parsePlayerMessenger.
    unfold bind at 1 2, lift at 1 2. cbn [Get]. rewrite Hpm. cbn [truthy].
    unfold ret. cbn [fst snd trace blank initial events_of app].
    unfold block_effects, parseAPDisplay, bind, lift, console_log, emit, tell, ret.
    cbn [Get]. rewrite Hapd. cbn [truthy Get]. rewrite Htag.
    cbn [strict_eq_string]. rewrite String.eqb_refl, Hv.
    cbn [ToString json_toString]. reflexivity.
  - intros (e & Hin & He). apply parseAPDisplay_gate. intros Hnone.
    cbn [In] in Hin. destruct Hin as [<- | Hin]; [discriminate |].
    apply in_app_or in Hin. destruct Hin as [Hin | Hin].
    + assert (Hkind : forall x,
                 In x (events_of (block_effects (parsePlayerMessenger (VData m)))) ->
                 is_compassDisplay x = false).
      { clear. intros x.
        unfold block_effects, parsePlayerMessenger, bind, lift, console_log, emit,
          tell, ret.
        destruct (Get (VData m) "PlayerMessenger") as [pm | ?]; [| now intros []].
        destruct (truthy pm); [| now intros []].
        destruct (Get pm "t") as [tag | ?]; [| now intros []].
        destruct (strict_eq_string tag "J"); [| now intros []].
        destruct (Get pm "v") as [messenger | ?]; [| now intros []].
        destruct (Get messenger "Props") as [props | ?]; [| now intros []].
        destruct (truthy props); cbn [fst snd trace this];
          (destruct (Get messenger "Msg") as [msg | ?];
           [| simpl; intros H; repeat (destruct H as [<- | H]; [reflexivity |]); now destruct H]);
          (destruct (truthy msg);
           [| simpl; intros H; repeat (destruct H as [<- | H]; [reflexivity |]); now destruct H]);
          (destruct (Get msg "Type") as [ty | ?];
           [| simpl; intros H; repeat (destruct H as [<- | H]; [reflexivity |]); now destruct H]);
          (destruct (ToString ty) as [tt1 | ?];
           [| simpl; intros H; repeat (destruct H as [<- | H]; [reflexivity |]); now destruct H]);
          (destruct (Get msg "Noti") as [no | ?];
           [| simpl; intros H; repeat (destruct H as [<- | H]; [reflexivity |]); now destruct H]);
          (destruct (ToString no) as [tt2 | ?];
           simpl; intros H; repeat (destruct H as [<- | H]; [reflexivity |]); now destruct H). }
      rewrite (Hkind e Hin) in He. discriminate.
    + destruct (block_outcome (parsePlayerMessenger (VData m))); [| now destruct Hin].
      rewrite Hnone in Hin. now destruct Hin.
Qed.

Lemma X12_witness :
  events_of (frame_effects JSON_parse (quoted "1{'AP_display':{'t':'S','v':'270.NW.HDG'}}")) =
  [message (VData (JObj [("AP_display", JObj [("t", JStr "S"); ("v", JStr "270.NW.HDG")])]));
   compassDisplay (VData (JStr "270.NW.HDG"))].
Proof.
  refine (proj1 (X12_compass_display JSON_parse
                   (quoted "1{'AP_display':{'t':'S','v':'270.NW.HDG'}}")
                   (JObj [("AP_display", JObj [("t", JStr "S"); ("v", JStr "270.NW.HDG")])])
                   _ _)
                _ _ _ eq_refl eq_refl eq_refl eq_refl eq_refl).
  - apply Nat.leb_le. vm_compute. reflexivity.
  - vm_compute. reflexivity.
Defined.

(** X13.  An exception in the first block ends the dispatch of the
    frame.  When the envelope under [PlayerMessenger] has the tag J and its
    [v] is missing or [null], reading [Props] from it throws; the exception
    is caught and logged by [processMessage], after the generic message
    event and before anything else: the frame emits the message event
    only, whatever else the message holds (a valid [AP_display] envelope
    in the same message gives no compass display). *)
Theorem X13_broken_messenger_ends_dispatch
    (P : string -> outcome json) (line : string) (fields envelope : list (string * json)) :
  (2 <= String.length line)%nat ->
  P (substring1 line 1) = Return (JObj fields) ->
  lookup "PlayerMessenger" fields = Some (JObj envelope) ->
  lookup "t" envelope = Some (JStr "J") ->
  lookup "v" envelope = None \/ lookup "v" envelope = Some JNull ->
  events_of (frame_effects P line) = [message (VData (JObj fields))] /\
  exists text,
    frame_effects P line =
    [console Log [LText ("<- RECV [Group " ++ charAt0 line ++ "]: " ++ substring1 line 1)];
     emitted (message (VData (JObj fields)));
     console Err [LText "Error parsing message:"; LError (TypeError text)]].
Proof.
  intros Hlen HP Hpm Htag Hv.
  assert (Hblock : exists text,
             parsePlayerMessenger (VData (JObj fields)) blank =
             (Throw (TypeError text), blank)).
  { unfold parsePlayerMessenger, bind, lift. cbn [Get]. rewrite Hpm.
    cbn [truthy Get]. rewrite Htag. cbn [strict_eq_string]. rewrite String.eqb_refl.
    destruct Hv as [-> | ->]; eexists; reflexivity. }
  destruct Hblock as [text Hblock].
  assert (Hall : parseSpecialMessages (VData (JObj fields)) blank =
                 (Throw (TypeError text), blank)).
  { unfold parseSpecialMessages, bind at 1. now rewrite Hblock. }
  assert (Heff : frame_effects P line =
    [console Log [LText ("<- RECV [Group " ++ charAt0 line ++ "]: " ++ substring1 line 1)];
     emitted (message (VData (JObj fields)));
     console Err [LText "Error parsing message:"; LError (TypeError text)]]).
  { rewrite (frame_effects_decoded P line _ Hlen HP).
    unfold block_effects, block_outcome. rewrite Hall. reflexivity. }
  split; [now rewrite Heff | now exists text].
Qed.

Lemma X13_witness :
  events_of (frame_effects JSON_parse
    (quoted "1{'PlayerMessenger':{'t':'J'},'AP_display':{'t':'S','v':'270.NW.HDG'}}")) =
  [message (VData (JObj [("PlayerMessenger", JObj [("t", JStr "J")]);
                         ("AP_display", JObj [("t", JStr "S"); ("v", JStr "270.NW.HDG")])]))].
Proof.
  refine (proj1 (X13_broken_messenger_ends_dispatch JSON_parse
                   (quoted "1{'PlayerMessenger':{'t':'J'},'AP_display':{'t':'S','v':'270.NW.HDG'}}")
                   [("PlayerMessenger", JObj [("t", JStr "J")]);
                    ("AP_display", JObj [("t", JStr "S"); ("v", JStr "270.NW.HDG")])]
                   [("t", JStr "J")] _ _ eq_refl eq_refl (or_introl eq_refl))).
  - apply Nat.leb_le. vm_compute. reflexivity.
  - vm_compute. reflexivity.
Defined.

(** X14.  Payloads that carry none of the known keys.  A decoded value
    that is an object without the keys [PlayerMessenger], [AP_display] and
    [AP_active], or that is a boolean, a number, a string or an array, is
    delivered as the generic message event and nothing else happens.  The
    value [null] is delivered too, and then reading [PlayerMessenger] from
    it throws: the exception is caught and logged. *)
Theorem X14_payload_without_known_keys
    (P : string -> outcome json) (line : string) (m : json) :
  (2 <= String.length line)%nat ->
  P (substring1 line 1) = Return m ->
  let received :=
    [console Log [LText ("<- RECV [Group " ++ charAt0 line ++ "]: " ++ substring1 line 1)];
     emitted (message (VData m))] in
  (m = JNull ->
   frame_effects P line =
   (received ++
    [console Err [LText "Error parsing message:";
                  LError (TypeError
                    "Cannot read properties of null (reading 'PlayerMessenger')")]])%list) /\
  (m <> JNull ->
   (forall fields, m = JObj fields ->
                   lookup "PlayerMessenger" fields = None /\
                   lookup "AP_display" fields = None /\
                   lookup "AP_active" fields = None) ->
   frame_effects P line = received).
Proof.
  intros Hlen HP received. subst received.
  rewrite (frame_effects_decoded P line m Hlen HP). split.
  - intros ->. reflexivity.
  - intros Hnull Hkeys.
    assert (Hquiet : parseSpecialMessages (VData m) blank = (Return tt, blank)).
    { unfold parseSpecialMessages, parsePlayerMessenger, parseAPDisplay, parseAPActive,
        bind, lift, ret.
      destruct m as [| b | n | s | elems | fields]; try reflexivity.
      - now destruct Hnull.
      - destruct (Hkeys fields eq_refl) as (H1 & H2 & H3).
        cbn [Get]. rewrite H1, H2, H3. reflexivity. }
    unfold block_effects, block_outcome. rewrite Hquiet. reflexivity.
Qed.

Lemma X14_witness :
  frame_effects JSON_parse (quoted "1{'Sail.Main.Size':{'t':'F','v':0.8}}") =
  [console Log [LText (quoted "<- RECV [Group 1]: {'Sail.Main.Size':{'t':'F','v':0.8}}")];
   emitted (message (VData (JObj [("Sail.Main.Size",
                                   JObj [("t", JStr "F"); ("v", JNum (literal "0.8"))])])))].
Proof.
  refine (proj2 (X14_payload_without_known_keys JSON_parse
                   (quoted "1{'Sail.Main.Size':{'t':'F','v':0.8}}")
                   (JObj [("Sail.Main.Size",
                           JObj [("t", JStr "F"); ("v", JNum (literal "0.8"))])]) _ _) _ _).
  - apply Nat.leb_le. vm_compute. reflexivity.
  - vm_compute. reflexivity.
  - discriminate.
  - intros fields H. injection H as <-. repeat split.
Defined.

Ltac pm_leaf :=
  simpl;
  first
    [ exists (@nil event), (@nil event); split; [reflexivity | split; now left]
    | match goal with
      | |- context [boatProperties ?p :: _] =>
          match goal with
          | |- context [gameNotification ?g :: _] =>
              exists [boatProperties p], [gameNotification g];
              split; [reflexivity | split; right; eexists; reflexivity]
          | _ =>
              exists [boatProperties p], (@nil event);
              split; [reflexivity | split; [right; eexists; reflexivity | now left]]
          end
      end
    | match goal with
      | |- context [gameNotification ?g :: _] =>
          exists (@nil event), [gameNotification g];
          split; [reflexivity | split; [now left | right; eexists; reflexivity]]
      end ].

(** The block of [PlayerMessenger] emits at most a boat-properties event
    and then at most a game-notification event. *)
Lemma parsePlayerMessenger_events m :
  exists bp gn,
    events_of (block_effects (parsePlayerMessenger m)) = (bp ++ gn)%list /\
    (bp = [] \/ exists p, bp = [boatProperties p]) /\
    (gn = [] \/ exists g, gn = [gameNotification g]).
Proof.
  unfold block_effects, parsePlayerMessenger, bind, lift, console_log, emit, tell, ret.
  destruct (Get m "PlayerMessenger") as [pm | ?]; [| pm_leaf].
  destruct (truthy pm); [| pm_leaf].
  destruct (Get pm "t") as [tag | ?]; [| pm_leaf].
  destruct (strict_eq_string tag "J"); [| pm_leaf].
  destruct (Get pm "v") as [messenger | ?]; [| pm_leaf].
  destruct (Get messenger "Props") as [props | ?]; [| pm_leaf].
  destruct (truthy props); cbn [fst snd trace this];
    (destruct (Get messenger "Msg") as [msg | ?]; [| pm_leaf]);
    (destruct (truthy msg); [| pm_leaf]);
    (destruct (Get msg "Type") as [ty | ?]; [| pm_leaf]);
    (destruct (ToString ty) as [t1 | ?]; [| pm_leaf]);
    (destruct (Get msg "Noti") as [no | ?]; [| pm_leaf]);
    (destruct (ToString no) as [t2 | ?]; pm_leaf).
Qed.

(** X15.  The events of one frame.  A frame that fails to decode emits
    nothing.  A decoded frame emits the generic message event first and
    once, and after it at most one boat-properties event, then at most one
    game-notification event, then at most one compass-display event: never
    more than four events, and never in another order. *)
Theorem X15_events_of_a_frame (P : string -> outcome json) (line : string) :
  (decode_fails P line -> events_of (frame_effects P line) = []) /\
  (forall m,
      (2 <= String.length line)%nat ->
      P (substring1 line 1) = Return m ->
      exists bp gn cd,
        events_of (frame_effects P line) = (message (VData m) :: bp ++ gn ++ cd)%list /\
        (bp = [] \/ exists p, bp = [boatProperties p]) /\
        (gn = [] \/ exists g, gn = [gameNotification g]) /\
        (cd = [] \/ exists d, cd = [compassDisplay d])).
Proof.
  split.
  - intros [Hshort | [e He]].
    + now rewrite frame_effects_short.
    + destruct (Nat.lt_ge_cases (String.length line) 2) as [Hs | Hl].
      * now rewrite frame_effects_short.
      * now rewrite (frame_effects_refused P line e Hl He).
  - intros m Hlen HP. rewrite (frame_events_decoded P line m Hlen HP).
    rewrite parseSpecialMessages_blocks.
    destruct (parsePlayerMessenger_events (VData m)) as (bp & gn & Hpm & Hbp & Hgn).
    rewrite Hpm.
    destruct (block_outcome (parsePlayerMessenger (VData m))).
    + destruct (parseAPDisplay_events (VData m)) as [Hcd | [d Hcd]]; rewrite Hcd.
      * exists bp, gn, []. rewrite <- app_assoc. repeat split; auto.
      * exists bp, gn, [compassDisplay d]. rewrite <- app_assoc.
        repeat split; auto. right. now exists d.
    + exists bp, gn, []. rewrite <- app_assoc. repeat split; auto.
Qed.

Lemma X15_witness :
  events_of (frame_effects JSON_parse (quoted "1{'A':")) = [] /\
  exists bp gn cd,
    events_of (frame_effects JSON_parse (full_frame "J")) =
      (message (VData (full_message "J")) :: bp ++ gn ++ cd)%list /\
    (bp = [] \/ exists p, bp = [boatProperties p]) /\
    (gn = [] \/ exists g, gn = [gameNotification g]) /\
    (cd = [] \/ exists d, cd = [compassDisplay d]).
Proof.
  split.
  - apply (proj1 (X15_events_of_a_frame JSON_parse (quoted "1{'A':"))).
    right. eexists. vm_compute. reflexivity.
  - apply (proj2 (X15_events_of_a_frame JSON_parse (full_frame "J"))).
    + apply Nat.leb_le. vm_compute. reflexivity.
    + vm_compute. reflexivity.
Defined.

(** ** Further properties: errors of the socket *)

(** X16.  A socket error.  In every case the handler sets the state to
    [Error], leaves the other fields as they are and logs [Socket error:]
    with the message of the error, on the error stream of the console.
    With a subscriber to the [error] event it then emits the event, with
    the error, and returns: the host observes the log and the event, in
    this order, and nothing else.  Without a subscriber the emitter throws
    the error out of the handler: the host observes the log only, nothing
    catches the error, and a run of the client stops there. *)
Theorem X16_socket_error (P : string -> outcome json) (err : exn) (w : world) :
  let heard := existsb (String.eqb "error") (listeners w) in
  let w1 := snd (on_socket_error err w) in
  let logged := console Err [LText "Socket error:"; LText (message_of err)] in
  state (this w1) = Error /\
  socket (this w1) = socket (this w) /\
  reconnectTimer (this w1) = reconnectTimer (this w) /\
  buffer (this w1) = buffer (this w) /\
  options (this w1) = options (this w) /\
  (heard = true ->
   fst (on_socket_error err w) = Return tt /\
   trace w1 = (trace w ++ [logged; emitted (error err)])%list /\
   events_of (trace w1) = (events_of (trace w) ++ [error err])%list) /\
  (heard = false ->
   fst (on_socket_error err w) = Throw err /\
   trace w1 = (trace w ++ [logged])%list /\
   events_of (trace w1) = events_of (trace w) /\
   forall rest, run P (socket_error_event err :: rest) w = (Throw err, w1)).
Proof.
  intros heard w1 logged. subst heard w1 logged.
  unfold on_socket_error, message_of, bind, set_state, bind, get_this, set_this,
    console_error, emit, bind, has_listener, tell, throw.
  cbn [fst snd this state socket reconnectTimer buffer options listeners trace].
  destruct (existsb (String.eqb "error") (listeners w)) eqn:E;
    cbn [fst snd this state socket reconnectTimer buffer options listeners trace].
  - repeat (split; [reflexivity |]). split; [| intros H; discriminate H].
    intros _. split; [reflexivity |]. split; [now rewrite <- app_assoc |].
    rewrite !events_of_app. simpl. now rewrite app_nil_r.
  - repeat (split; [reflexivity |]). split; [intros H; discriminate H |].
    intros _. split; [reflexivity |]. split; [reflexivity |]. split.
    + rewrite !events_of_app. simpl. now rewrite app_nil_r.
    + intros rest. cbn [run step]. unfold bind at 1.
      unfold on_socket_error, bind, set_state, bind, get_this, set_this, console_error,
        emit, bind, has_listener, tell, throw.
      cbn [fst snd this state socket reconnectTimer listeners trace]. rewrite E.
      reflexivity.
Qed.

(** ** Further properties: clamped controls *)

(** [clamp] between two finite bounds in order. *)
Lemma clamp_between lo hi x :
  (lo < hi)%Q -> x <> NaN ->
  clamped_to (Finite lo) (Finite hi) x (clamp x (Finite lo) (Finite hi)).
Proof.
  intros Hb Hx. unfold clamp, Math_max, Math_min, clamped_to.
  assert (Hlt : lt (Finite lo) (Finite hi) = true) by now apply lt_Finite.
  destruct x as [| | | q]; [now destruct Hx | | |].
  - cbn [max_loop min_loop isNaN lt]. cbv iota.
    change (negb (Qle_bool hi lo)) with (lt (Finite lo) (Finite hi)). rewrite Hlt.
    cbn [num_le num_lt].
    repeat split; intros; try reflexivity; try easy; try lra.
  - cbn [max_loop min_loop isNaN lt]. cbv iota. cbn [num_le num_lt].
    repeat split; intros; try reflexivity; try easy; try lra.
  - cbn [max_loop min_loop isNaN]. change (lt (Finite hi) PosInfinity) with true.
    cbv iota.
    destruct (lt (Finite q) (Finite hi)) eqn:E1.
    + apply lt_Finite in E1. cbn [isNaN].
      change (lt NegInfinity (Finite lo)) with true. cbv iota.
      destruct (lt (Finite lo) (Finite q)) eqn:E2.
      * apply lt_Finite in E2. cbn [num_le num_lt].
        repeat split; intros; try reflexivity; lra.
      * apply lt_Finite_false in E2. cbn [num_le num_lt].
        repeat split; intros; try reflexivity; lra.
    + apply lt_Finite_false in E1. cbn [isNaN].
      change (lt NegInfinity (Finite lo)) with true. cbv iota. rewrite Hlt.
      cbn [num_le num_lt]. repeat split; intros; try reflexivity; lra.
Qed.

(** X17.  [clamp] between two finite bounds [lo < hi] brings every number
    other than [NaN] into the range from [lo] to [hi]: a number inside is
    kept, a number outside becomes the nearer bound, infinities included.
    So a sail is sent under the key [Sail.] followed by its name with the
    value clamped to the range from 0 to 1, and a throttle under
    [BoatThrottle] followed by the engine with the value clamped to the
    range from -1 to 1. *)
Theorem X17_clamp_between_its_bounds
    (lo hi : Q) (x : number) (sail : string) (engine : number) :
  (lo < hi)%Q ->
  x <> NaN ->
  clamped_to (Finite lo) (Finite hi) x (clamp x (Finite lo) (Finite hi)) /\
  (exists c, sendSailControl sail x = sendControl ("Sail." ++ sail) (VData (JNum c)) /\
             clamped_to (Finite 0) (Finite 1) x c) /\
  (exists c, sendThrottle x engine =
             sendControl ("BoatThrottle" ++ Number_toString engine) (VData (JNum c)) /\
             clamped_to (Finite (-1)) (Finite 1) x c).
Proof.
  intros Hb Hx. split; [now apply clamp_between |]. split.
  - exists (clamp x (Finite 0) (Finite 1)). split; [reflexivity |].
    now apply clamp_between.
  - exists (clamp x (Finite (-1)) (Finite 1)). split; [reflexivity |].
    now apply clamp_between.
Qed.

Lemma X17_witness :
  clamp (literal "7.5") (Finite 2) (Finite 5) = Finite 5 /\
  (exists c, sendSailControl "Main.Sheet" (literal "1.5") =
             sendControl "Sail.Main.Sheet" (VData (JNum c)) /\ c = Finite 1) /\
  (exists c, sendThrottle (literal "-3") (literal "1") =
             sendControl "BoatThrottle1" (VData (JNum c)) /\ c = Finite (-1)).
Proof.
  assert (Hb : (2 < 5)%Q) by reflexivity.
  assert (Hx : literal "7.5" <> NaN) by (vm_compute; discriminate).
  assert (Hs : literal "1.5" <> NaN) by (vm_compute; discriminate).
  assert (Ht : literal "-3" <> NaN) by (vm_compute; discriminate).
  refine (conj _ (conj _ _)).
  - destruct (X17_clamp_between_its_bounds 2 5 (literal "7.5") "" NaN Hb Hx)
      as ((_ & _ & _ & Hhi & _) & _).
    apply Hhi. vm_compute. discriminate.
  - destruct (X17_clamp_between_its_bounds 2 5 (literal "1.5") "Main.Sheet" NaN Hb Hs)
      as (_ & (c & Hc & Hspec) & _).
    exists c. split; [exact Hc |]. apply Hspec. vm_compute. discriminate.
  - destruct (X17_clamp_between_its_bounds 2 5 (literal "-3") "" (literal "1") Hb Ht)
      as (_ & _ & (c & Hc & Hspec)).
    exists c. split; [| apply Hspec; vm_compute; discriminate].
    rewrite Hc. replace (Number_toString (literal "1")) with "1" by (vm_compute; reflexivity).
    reflexivity.
Defined.

(** The whole numbers strictly between -1 and 1. *)
Lemma is_integral_inside q :
  (-1 < q)%Q -> (q < 1)%Q -> (is_integral (Finite q) = true <-> (q == 0)%Q).
Proof.
  intros Hlo Hhi. rewrite is_integral_spec. split.
  - intros [z Hz]. rewrite Hz in *.
    change (-1)%Q with (inject_Z (-1)) in Hlo. change 1%Q with (inject_Z 1) in Hhi.
    rewrite <- Zlt_Qlt in Hlo, Hhi. assert (z = 0%Z) by lia. now subst z.
  - intros Hq. now exists 0%Z.
Qed.

(** X18.  The type code of a rudder value depends on the value after the
    clamp.  At a stop or beyond, the rudder is sent as the integer 1 or -1
    with the type code I.  Strictly between the stops the value is sent as
    it is, with the type code F unless it is zero, which is sent with the
    type code I. *)
Theorem X18_type_code_of_the_rudder (x : number) :
  (num_le (Finite 1) x ->
   sendRudder x =
   sendMessage [("BoatRuder", {| t := tI; v := VData (JNum (Finite 1)) |})]) /\
  (num_le x (Finite (-1)) ->
   sendRudder x =
   sendMessage [("BoatRuder", {| t := tI; v := VData (JNum (Finite (-1))) |})]) /\
  (num_lt (Finite (-1)) x -> num_lt x (Finite 1) ->
   sendRudder x =
   sendMessage [("BoatRuder",
                 {| t := if number_eqb x (Finite 0) then tI else tF;
                    v := VData (JNum x) |})]).
Proof.
  assert (Hb : (-1 < 1)%Q) by reflexivity.
  unfold sendRudder, sendControl.
  refine (conj _ (conj _ _)).
  - intros H. assert (Hx : x <> NaN) by (intros ->; exact H).
    destruct (clamp_between (-1) 1 x Hb Hx) as (_ & _ & _ & Hhi & _).
    now rewrite (Hhi H).
  - intros H. assert (Hx : x <> NaN) by (intros ->; exact H).
    destruct (clamp_between (-1) 1 x Hb Hx) as (_ & _ & _ & _ & Hlo).
    now rewrite (Hlo H).
  - intros H1 H2. assert (Hx : x <> NaN) by (intros ->; exact H1).
    destruct (clamp_between (-1) 1 x Hb Hx) as (_ & _ & Hin & _).
    rewrite (Hin H1 H2).
    destruct x as [| | | q]; try easy. cbn [num_lt] in H1, H2.
    unfold getTypeCode. cbn [typeof String.eqb Ascii.eqb Bool.eqb Number_isInteger].
    cbn [number_eqb].
    pose proof (is_integral_inside q H1 H2) as Hq.
    destruct (Qeq_bool q 0) eqn:E.
    + apply Qeq_bool_iff in E. now rewrite (proj2 Hq E).
    + destruct (is_integral (Finite q)); [| reflexivity].
      apply Qeq_bool_neq in E. now destruct E; apply Hq.
Qed.

Lemma X18_witness :
  let w := snd (run JSON_parse [call_connect; socket_connect_event] blank) in
  written (trace (snd (sendRudder (literal "2.5") w))) =
    [quoted "1{'BoatRuder':{'t':'I','v':1}}" ++ null_byte] /\
  written (trace (snd (sendRudder (literal "0.0") w))) =
    [quoted "1{'BoatRuder':{'t':'I','v':0}}" ++ null_byte] /\
  written (trace (snd (sendRudder (literal "0.5") w))) =
    [quoted "1{'BoatRuder':{'t':'F','v':0.5}}" ++ null_byte].
Proof.
  intros w.
  assert (E1 : literal "2.5" = Finite (5 # 2)) by (vm_compute; reflexivity).
  assert (E2 : literal "0.0" = Finite 0) by (vm_compute; reflexivity).
  assert (E3 : literal "0.5" = Finite (1 # 2)) by (vm_compute; reflexivity).
  rewrite E1, E2, E3.
  refine (conj _ (conj _ _)).
  - rewrite (proj1 (X18_type_code_of_the_rudder (Finite (5 # 2)))).
    + vm_compute. reflexivity.
    + vm_compute. discriminate.
  - rewrite (proj2 (proj2 (X18_type_code_of_the_rudder (Finite 0)))).
    + vm_compute. reflexivity.
    + reflexivity.
    + reflexivity.
  - rewrite (proj2 (proj2 (X18_type_code_of_the_rudder (Finite (1 # 2))))).
    + vm_compute. reflexivity.
    + reflexivity.
    + reflexivity.
Defined.

(** ** Further properties: the frame on the wire *)

Lemma printable_app a b : printable (a ++ b) = printable a && printable b.
Proof.
  induction a as [| c a IH]; [reflexivity |].
  cbn [append printable]. now rewrite IH, andb_assoc.
Qed.

Lemma printable_quote_char c : printable (quote_char c) = true.
Proof. destruct c as [[] [] [] [] [] [] [] []]; vm_compute; reflexivity. Qed.

Lemma printable_quote_body s : printable (quote_body s) = true.
Proof.
  induction s as [| c s IH]; [reflexivity |].
  cbn [quote_body]. now rewrite printable_app, printable_quote_char, IH.
Qed.

Lemma printable_quote s : printable (quote s) = true.
Proof.
  unfold quote. cbn [printable]. rewrite printable_app, printable_quote_body.
  reflexivity.
Qed.

Lemma printable_digit_char z : (32 <=? nat_of_ascii (digit_char (z mod 10)))%nat = true.
Proof.
  pose proof (Z.mod_pos_bound z 10 eq_refl) as H.
  assert (E : (z mod 10 = 0 \/ z mod 10 = 1 \/ z mod 10 = 2 \/ z mod 10 = 3 \/
               z mod 10 = 4 \/ z mod 10 = 5 \/ z mod 10 = 6 \/ z mod 10 = 7 \/
               z mod 10 = 8 \/ z mod 10 = 9)%Z) by lia.
  repeat (destruct E as [E | E]; [rewrite E; reflexivity |]).
  rewrite E. reflexivity.
Qed.

Lemma printable_digits_loop fuel z acc :
  printable acc = true -> printable (digits_loop fuel z acc) = true.
Proof.
  revert z acc. induction fuel as [| fuel IH]; intros z acc Hacc; [exact Hacc |].
  cbn [digits_loop].
  assert (H : printable (String (digit_char (z mod 10)) acc) = true).
  { cbn [printable]. now rewrite printable_digit_char, Hacc. }
  destruct (z / 10 =? 0)%Z; [exact H | now apply IH].
Qed.

Lemma printable_digits z : printable (digits z) = true.
Proof. unfold digits. now apply printable_digits_loop. Qed.

Lemma printable_zeros n : printable (zeros n) = true.
Proof. induction n as [| n IH]; [reflexivity |]. cbn [zeros printable]. now rewrite IH. Qed.

Lemma printable_substring n m s :
  printable s = true -> printable (substring n m s) = true.
Proof.
  revert n m. induction s as [| c s IH]; intros n m H.
  - destruct n, m; reflexivity.
  - cbn [printable] in H. apply andb_true_iff in H. destruct H as [Hc Hs].
    destruct n as [| n]; cbn [substring].
    + destruct m as [| m]; [reflexivity |].
      cbn [printable]. now rewrite Hc, IH.
    + now apply IH.
Qed.

Lemma printable_render n k s : printable (render n k s) = true.
Proof.
  unfold render.
  repeat match goal with
         | |- context [if ?c then _ else _] => destruct c
         end;
    rewrite ?printable_app, ?printable_substring, ?printable_digits, ?printable_zeros;
    auto using printable_digits.
Qed.

Lemma printable_Number_toString x : printable (Number_toString x) = true.
Proof.
  destruct x as [| | | q]; try reflexivity.
  unfold Number_toString.
  destruct (Qeq_bool q 0); [reflexivity |].
  destruct (shortest (Qabs q)) as [[n k] s].
  rewrite printable_app, printable_render.
  now destruct (Qle_bool 0 q).
Qed.

Lemma printable_join parts :
  forallb printable parts = true -> printable (join_with "," parts) = true.
Proof.
  induction parts as [| p rest IH]; [reflexivity |].
  cbn [forallb]. intros H. apply andb_true_iff in H. destruct H as [Hp Hrest].
  cbn [join_with]. destruct rest as [| p' rest']; [exact Hp |].
  rewrite !printable_app, Hp, (IH Hrest). reflexivity.
Qed.

Lemma printable_stringify_json j : printable (stringify_json j) = true.
Proof.
  revert j. fix IH 1. intros [| [] | [| | | q] | s | elems | props];
    try reflexivity.
  - apply printable_Number_toString.
  - apply printable_quote.
  - cbn [stringify_json]. rewrite !printable_app.
    rewrite printable_join; [reflexivity |].
    induction elems as [| e elems IHl]; [reflexivity |].
    cbn [map forallb]. now rewrite IH, IHl.
  - cbn [stringify_json]. rewrite !printable_app.
    rewrite printable_join; [reflexivity |].
    induction props as [| [k j] props IHl]; [reflexivity |].
    cbn [map forallb fst snd]. rewrite !printable_app, printable_quote, IH, IHl.
    reflexivity.
Qed.

(** What [JSON.stringify] answers for the message of [sendControl] holds
    no control character. *)
Lemma printable_JSON_stringify key value json :
  JSON_stringify [(key, {| t := getTypeCode value; v := value |})] = Return json ->
  printable json = true.
Proof.
  unfold JSON_stringify, stringify_entries, stringify_envelope.
  cbn [DYBClient.v DYBClient.t].
  destruct (stringify_property value) as [[text |] |] eqn:E; [| | discriminate].
  - intros [= <-]. cbn [join_with].
    destruct value as [| j | | |]; try discriminate E.
    cbn [stringify_property] in E. injection E as <-.
    repeat (cbn [printable];
            rewrite ?printable_app, ?printable_quote_body, ?printable_stringify_json).
    reflexivity.
  - intros [= <-]. cbn [join_with].
    repeat (cbn [printable]; rewrite ?printable_app, ?printable_quote_body).
    reflexivity.
Qed.

(** In a text without control characters followed by the terminator, the
    terminator is the first null byte, and there is no newline. *)
Lemma find_terminator body :
  printable body = true ->
  find (body ++ null_byte) null_byte = Some (String.length body) /\
  find (body ++ null_byte) newline = None.
Proof.
  induction body as [| c body IH]; intros H; [split; reflexivity |].
  cbn [printable] in H. apply andb_true_iff in H. destruct H as [Hc Hbody].
  destruct (IH Hbody) as [IH1 IH2].
  cbn [append String.length find]. rewrite IH1, IH2.
  assert (E0 : Ascii.eqb (ascii_of_nat 0) c = false).
  { apply Ascii.eqb_neq. intros <-. discriminate Hc. }
  assert (E10 : Ascii.eqb (ascii_of_nat 10) c = false).
  { apply Ascii.eqb_neq. intros <-. discriminate Hc. }
  unfold null_byte, newline. cbn [startsWith]. rewrite E0, E10. split; reflexivity.
Qed.

(** X19.  The frame on the wire.  For every key and every value of the
    embedding other than a BigInt (so for every number, boolean and
    string), [JSON.stringify] answers a text and a connected client makes
    exactly one write: the text of the group id, then that JSON text,
    then the terminator; and it logs the JSON text.  The group id and the
    JSON text hold no control character, whatever characters the key and
    the value hold: so the terminator is the first null byte of the frame,
    and the frame holds no newline. *)
Theorem X19_frame_is_delimited_by_its_terminator
    (key : string) (value : value) (w : world) (h : nat) :
  state (this w) = Connected ->
  socket (this w) = Some h ->
  (forall z, value <> VBigInt z) ->
  exists json : string,
    JSON_stringify [(key, {| t := getTypeCode value; v := value |})] = Return json /\
    let body := Number_toString (groupId (options (this w))) ++ json in
    sendControl key value w =
      (Return tt,
       log_more w [socket_write h (body ++ null_byte);
                   console Log [LText ("-> SENT: " ++ json)]]) /\
    printable body = true /\
    indexOf (body ++ null_byte) null_byte = Z.of_nat (String.length body) /\
    includes (body ++ null_byte) newline = false.
Proof.
  intros Hstate Hsocket Hvalue.
  unfold sendControl. rewrite (sendMessage_connected _ w h Hstate Hsocket).
  destruct (JSON_stringify [(key, {| t := getTypeCode value; v := value |})])
    as [json | e] eqn:E.
  - pose proof (printable_JSON_stringify key value json E) as Hjson.
    exists json. split; [reflexivity |]. cbv zeta.
    assert (Hbody : printable (Number_toString (groupId (options (this w))) ++ json)
                    = true)
      by now rewrite printable_app, printable_Number_toString, Hjson.
    destruct (find_terminator _ Hbody) as [H0 H10].
    split; [now rewrite append_assoc |]. split; [exact Hbody |].
    unfold indexOf, includes. rewrite H0, H10. split; reflexivity.
  - exfalso. unfold JSON_stringify, stringify_entries, stringify_envelope in E.
    cbn [DYBClient.v DYBClient.t] in E.
    destruct value as [| j | | | z]; try discriminate E.
    now apply (Hvalue z).
Qed.

Lemma X19_witness :
  let w := snd (run JSON_parse [call_connect; socket_connect_event] blank) in
  let tab := String (ascii_of_nat 9) "" in
  let body := quoted "1{'\n\u0000':{'t':'J','v':['\t',-12.5]}}" in
  written (trace (snd (sendControl (newline ++ null_byte)
                         (VData (JArr [JStr tab; JNum (literal "-12.5")])) w))) =
    [body ++ null_byte] /\
  printable body = true /\
  indexOf (body ++ null_byte) null_byte = Z.of_nat (String.length body) /\
  includes (body ++ null_byte) newline = false.
Proof.
  intros w tab body.
  destruct (X19_frame_is_delimited_by_its_terminator
              (newline ++ null_byte)
              (VData (JArr [JStr tab; JNum (literal "-12.5")])) w 0%nat
              eq_refl eq_refl) as (json & Hjson & H).
  { intros z. discriminate. }
  cbv zeta in H. destruct H as (Hrun & Hrest).
  assert (Ejson : json = quoted "{'\n\u0000':{'t':'J','v':['\t',-12.5]}}").
  { vm_compute in Hjson. injection Hjson as <-. vm_compute. reflexivity. }
  subst json.
  split; [rewrite Hrun; vm_compute; reflexivity |].
  exact Hrest.
Defined.

(** ** Further properties: the socket over a run *)

Lemma live_after_app cur e1 e2 :
  live_after cur (e1 ++ e2) = live_after (live_after cur e1) e2.
Proof.
  revert cur. induction e1 as [| e e1 IH]; intros cur; [reflexivity |].
  destruct e; cbn [app live_after]; apply IH.
Qed.

Lemma writes_to_live_app cur e1 e2 :
  writes_to_live cur (e1 ++ e2) =
  writes_to_live cur e1 && writes_to_live (live_after cur e1) e2.
Proof.
  revert cur. induction e1 as [| e e1 IH]; intros cur; [reflexivity |].
  destruct e; cbn [app live_after writes_to_live]; try apply IH.
  destruct cur as [h' |]; [| reflexivity].
  now rewrite IH, andb_assoc.
Qed.

(** Console output and events touch no socket. *)
Lemma inbound_kind_live cur effs :
  forallb inbound_kind effs = true ->
  writes_to_live cur effs = true /\ live_after cur effs = cur.
Proof.
  induction effs as [| e effs IH]; [now split |].
  cbn [forallb]. intros H. apply andb_true_iff in H. destruct H as [He Hrest].
  destruct e; try discriminate He; cbn [writes_to_live live_after]; now apply IH.
Qed.

Lemma tracks_ret {A} (a : A) : tracks (ret a).
Proof. intros w. exists []. cbn. now rewrite app_nil_r. Qed.

Lemma tracks_lift {A} (o : outcome A) : tracks (lift o).
Proof. intros w. exists []. cbn. now rewrite app_nil_r. Qed.

Lemma tracks_throw {A} (e : exn) : tracks (@throw A e).
Proof. intros w. exists []. cbn. now rewrite app_nil_r. Qed.

Lemma tracks_get_this : tracks get_this.
Proof. intros w. exists []. cbn. now rewrite app_nil_r. Qed.

Lemma tracks_has_listener name : tracks (has_listener name).
Proof. intros w. exists []. cbn. now rewrite app_nil_r. Qed.

Lemma tracks_on name : tracks (on name).
Proof. intros w. exists []. cbn. now rewrite app_nil_r. Qed.

Lemma tracks_fresh : tracks fresh.
Proof. intros w. exists []. cbn. now rewrite app_nil_r. Qed.

Lemma tracks_set_state x : tracks (set_state x).
Proof. intros w. exists []. cbn. now rewrite app_nil_r. Qed.

Lemma tracks_set_buffer x : tracks (set_buffer x).
Proof. intros w. exists []. cbn. now rewrite app_nil_r. Qed.

Lemma tracks_set_reconnectTimer x : tracks (set_reconnectTimer x).
Proof. intros w. exists []. cbn. now rewrite app_nil_r. Qed.

Lemma tracks_tell e :
  (forall h, e <> socket_new h) -> (forall h, e <> socket_destroy h) ->
  (forall h d, e <> socket_write h d) ->
  tracks (tell e).
Proof.
  intros Hn Hd Hw w. exists [e]. cbn [tell snd trace this].
  destruct e; cbn [writes_to_live live_after]; repeat split;
    solve [ reflexivity | now destruct (Hn h) | now destruct (Hd h)
          | now destruct (Hw h data) ].
Qed.

Lemma tracks_bind {A B} (m : M A) (k : A -> M B) :
  tracks m -> (forall a, tracks (k a)) -> tracks (bind m k).
Proof.
  intros Hm Hk w. unfold bind. destruct (Hm w) as (e1 & Ht1 & Hw1 & Hl1).
  destruct (m w) as [[a | x] w1]; cbn [snd] in *.
  - destruct (Hk a w1) as (e2 & Ht2 & Hw2 & Hl2).
    exists (e1 ++ e2)%list. rewrite Ht2, Ht1, app_assoc.
    rewrite writes_to_live_app, live_after_app, Hw1, Hl1, Hw2, Hl2. now repeat split.
  - exists e1. now repeat split.
Qed.

Lemma tracks_if {A} (c : bool) (m1 m2 : M A) :
  tracks m1 -> tracks m2 -> tracks (if c then m1 else m2).
Proof. now destruct c. Qed.

Lemma tracks_try_catch body handler :
  tracks body -> (forall e, tracks (handler e)) -> tracks (try_catch body handler).
Proof.
  intros Hb Hh w. unfold try_catch. destruct (Hb w) as (e1 & Ht1 & Hw1 & Hl1).
  destruct (body w) as [[[] | x] w1]; cbn [snd] in *.
  - exists e1. now repeat split.
  - destruct (Hh x w1) as (e2 & Ht2 & Hw2 & Hl2).
    exists (e1 ++ e2)%list. rewrite Ht2, Ht1, app_assoc.
    rewrite writes_to_live_app, live_after_app, Hw1, Hl1, Hw2, Hl2. now repeat split.
Qed.

Ltac tracks_steps :=
  repeat first
    [ apply tracks_ret | apply tracks_lift | apply tracks_throw | apply tracks_get_this
    | apply tracks_has_listener | apply tracks_fresh | apply tracks_set_state
    | apply tracks_set_buffer | apply tracks_set_reconnectTimer
    | apply tracks_tell; [ intros ? | intros ? | intros ? ? ]; discriminate
    | apply tracks_if
    | apply tracks_bind; [ | intros ? ]
    | apply tracks_try_catch; [ | intros ? ] ].

Lemma tracks_emit e : tracks (emit e).
Proof. destruct e; unfold emit; tracks_steps. Qed.

Lemma tracks_connect : tracks connect.
Proof.
  intros w. destruct (state (this w)) eqn:Hstate.
  - rewrite connect_opens by now left. eexists. cbn [snd trace this socket].
    split; [reflexivity |]. cbn. now split.
  - rewrite connect_guarded by now left. eexists. cbn [snd log_more trace this].
    split; [reflexivity |]. now split.
  - rewrite connect_guarded by now right. eexists. cbn [snd log_more trace this].
    split; [reflexivity |]. now split.
  - rewrite connect_opens by now right. eexists. cbn [snd trace this socket].
    split; [reflexivity |]. cbn. now split.
Qed.

Lemma tracks_disconnect : tracks disconnect.
Proof.
  intros w. rewrite disconnect_spec. eexists. cbn [snd trace this socket].
  split; [reflexivity |].
  destruct (reconnectTimer (this w)), (socket (this w)); cbn;
    rewrite ?Nat.eqb_refl; now split.
Qed.

Lemma tracks_sendMessage message : tracks (sendMessage message).
Proof.
  intros w.
  destruct (state (this w)) eqn:Hstate;
    try (rewrite sendMessage_not_connected by (left; rewrite Hstate; discriminate);
         eexists; cbn [snd log_more trace this]; split; [reflexivity |]; now split).
  destruct (socket (this w)) as [h |] eqn:Hsocket.
  - rewrite (sendMessage_connected _ w h Hstate Hsocket).
    destruct (JSON_stringify message); eexists; cbn [snd log_more trace this];
      (split; [reflexivity |]); rewrite Hsocket; cbn; rewrite ?Nat.eqb_refl; now split.
  - rewrite sendMessage_not_connected by now right.
    eexists; cbn [snd log_more trace this]; split; [reflexivity |].
    rewrite Hsocket. now split.
Qed.

Lemma tracks_handleData P data : tracks (handleData P data).
Proof.
  intros w. rewrite handleData_spec.
  exists (frames_effects P (fst (split_lines (buffer (this w) ++ data)))).
  cbn [snd log_more with_buffer trace this socket].
  split; [reflexivity |]. apply inbound_kind_live.
  unfold frames_effects.
  induction (frames (fst (split_lines (buffer (this w) ++ data)))) as [| f fs IH];
    [reflexivity |].
  cbn [map List.concat]. now rewrite forallb_app, frame_effects_kind, IH.
Qed.

Lemma tracks_step P i : tracks (step P i).
Proof.
  destruct i; cbn [step];
    unfold sendRudder, sendThrottle, sendEngineState, sendBowThruster, sendAutopilot,
      sendHeadingAdjust, sendSailControl, sendControl, on_socket_data;
    try apply tracks_sendMessage;
    try apply tracks_connect; try apply tracks_disconnect; try apply tracks_on;
    try apply tracks_handleData.
  - unfold on_socket_connect, console_log. tracks_steps; try apply tracks_emit.
  - unfold on_socket_error, console_error. tracks_steps; try apply tracks_emit.
  - unfold on_socket_close, scheduleReconnect, console_log.
    tracks_steps; try apply tracks_emit.
    match goal with |- context [reconnectTimer ?c] => destruct (reconnectTimer c) end;
      tracks_steps.
  - apply tracks_bind; [apply tracks_get_this | intros c].
    destruct (reconnectTimer c); [| apply tracks_ret].
    unfold on_reconnect_timer.
    apply tracks_bind; [apply tracks_set_reconnectTimer | intros _; apply tracks_connect].
Qed.

Lemma tracks_run P inputs : tracks (run P inputs).
Proof.
  induction inputs as [| i inputs IH]; cbn [run]; [apply tracks_ret |].
  apply tracks_bind; [apply tracks_step | intros _; exact IH].
Qed.

(** X20.  The socket over a run.  Whatever the calls, the socket events
    and the timer events that a client goes through from its construction,
    and whatever they carry, the field [socket] holds the socket created
    last unless that one has been destroyed, and every write goes to that
    socket: the client never writes to a socket that it has destroyed or
    replaced. *)
Theorem X20_writes_go_to_the_live_socket
    (P : string -> outcome json) (o : DYBClientOptions) (inputs : list input) :
  let w := snd (run P inputs (initial o)) in
  writes_to_live None (trace w) = true /\
  live_after None (trace w) = socket (this w) /\
  (forall before h text later,
      trace w = (before ++ socket_write h text :: later)%list ->
      live_after None before = Some h).
Proof.
  intros w. subst w.
  destruct (tracks_run P inputs (initial o)) as (effs & Ht & Hw & Hl).
  cbn [initial trace this constructor socket app] in Ht, Hw, Hl.
  rewrite Ht. split; [exact Hw |]. split; [exact Hl |].
  intros before h text later E. rewrite E, writes_to_live_app in Hw.
  apply andb_true_iff in Hw. destruct Hw as [_ Hw]. cbn [writes_to_live] in Hw.
  destruct (live_after None before) as [h' |]; [| discriminate Hw].
  apply andb_true_iff in Hw. destruct Hw as [Hh _].
  apply Nat.eqb_eq in Hh. now subst h'.
Qed.
